(** * Verification of the listing crawler and the template downloader

    Two Python programs are embedded here:

    - [collect_all_list_items.py]: the click-through traversal of a paginated
      listing, with its de-duplicating accumulator and its stopping rules
      (module [Collect]);
    - [download_templates.py]: the per-record download routine with its
      response classification, retries and file persistence
      (module [Download]).

    Python integers are unbounded, so they are modelled by [Z].  Python
    strings are modelled by [string]; a Python dict used as a map is a stdpp
    [gmap].  Calls into third-party libraries (Selenium, BeautifulSoup,
    urllib, requests) are parameters of the development: interface classes
    or section variables, never axioms. *)

From Stdlib Require Import Ascii String ZArith QArith Strings.Byte.
From stdpp Require Import gmap strings list pretty.

Local Open Scope Z_scope.
Local Open Scope string_scope.
Local Open Scope list_scope.

(** ** Python string primitives used by both programs *)

Module Py.

(** [prefix_of p s]: [s.startswith(p)]. *)
Fixpoint prefix_of (p s : string) : bool :=
  match p, s with
  | EmptyString, _ => true
  | String a p', String b s' => if decide (a = b) then prefix_of p' s' else false
  | String _ _, EmptyString => false
  end.

(** [contains sub s]: the Python test [sub in s]. *)
Fixpoint contains (sub s : string) : bool :=
  if prefix_of sub s then true
  else match s with
       | EmptyString => false
       | String _ s' => contains sub s'
       end.

(** Truthiness of an optional string: [None] and [""] are falsy. *)
Definition truthy (o : option string) : bool :=
  match o with
  | Some (String _ _) => true
  | _ => false
  end.

(** [a or b] on optional strings. *)
Definition or_else (a b : option string) : option string :=
  if truthy a then a else b.

(** [str(x)] for a value that is a string or [None], as an f-string
    formats it. *)
Definition str_of (o : option string) : string :=
  match o with
  | Some s => s
  | None => "None"
  end.

(** [c in chars] for a single character [c]. *)
Fixpoint char_in (c : ascii) (chars : string) : bool :=
  match chars with
  | EmptyString => false
  | String d chars' => if decide (c = d) then true else char_in c chars'
  end.

(** [s.lower()] on the letters A to Z; other characters are kept. *)
Definition lower_char (c : ascii) : ascii :=
  let n := nat_of_ascii c in
  if decide (65 <= n <= 90)%nat then ascii_of_nat (n + 32) else c.

Fixpoint lower (s : string) : string :=
  match s with
  | EmptyString => EmptyString
  | String c s' => String (lower_char c) (lower s')
  end.

(** [s.split(sep)] for a non-empty [sep]: occurrences are found from left to
    right and do not overlap.  [skip] counts the characters of a separator
    just matched that are still to be passed over. *)
Fixpoint split_go (sep : string) (skip : nat) (s : string) : list string :=
  match s with
  | EmptyString => [EmptyString]
  | String c s' =>
      match skip with
      | S k => split_go sep k s'
      | O =>
          if prefix_of sep s
          then EmptyString :: split_go sep (String.length sep - 1) s'
          else match split_go sep 0 s' with
               | piece :: pieces => String c piece :: pieces
               | [] => [String c EmptyString]
               end
      end
  end.

Definition split (sep s : string) : list string := split_go sep 0 s.

(** [s.split(sep)[-1]] and [s.split(sep)[0]]. *)
Definition split_last (sep s : string) : string := List.last (split sep s) EmptyString.
Definition split_first (sep s : string) : string := List.hd EmptyString (split sep s).

(** [s.lstrip(chars)], [s.rstrip(chars)] and [s.strip(chars)]. *)
Fixpoint lstrip (chars s : string) : string :=
  match s with
  | EmptyString => EmptyString
  | String c s' => if char_in c chars then lstrip chars s' else s
  end.

Definition rstrip (chars s : string) : string :=
  String.rev (lstrip chars (String.rev s)).

Definition strip (chars s : string) : string := rstrip chars (lstrip chars s).

(** [s[:n]]. *)
Fixpoint take (n : nat) (s : string) : string :=
  match n, s with
  | S n', String c s' => String c (take n' s')
  | _, _ => EmptyString
  end.

(** [os.path.join(a, b)] of [posixpath]. *)
Definition os_path_join (a b : string) : string :=
  if prefix_of "/" b then b
  else if decide (a = EmptyString) then b
  else if prefix_of "/" (String.rev a) then a +:+ b
  else a +:+ "/" +:+ b.

(** The text from the last ['.'] of [s] on, with what precedes it; [None]
    when [s] has no ['.']. *)
Fixpoint split_last_dot (s : string) : option (string * string) :=
  match s with
  | EmptyString => None
  | String c s' =>
      match split_last_dot s' with
      | Some (root, ext) => Some (String c root, ext)
      | None => if decide (c = "."%char) then Some (EmptyString, s) else None
      end
  end.

(** The part of [s] after its last ['/']. *)
Fixpoint basename (s : string) : string :=
  match s with
  | EmptyString => EmptyString
  | String c s' =>
      if contains "/" s' then basename s'
      else if decide (c = "/"%char) then s' else s
  end.

Fixpoint all_dots (s : string) : bool :=
  match s with
  | EmptyString => true
  | String c s' => if decide (c = "."%char) then all_dots s' else false
  end.

(** [os.path.splitext(p)] of [posixpath] ([genericpath._splitext]): the
    extension starts at the last dot, provided that dot comes after the last
    ['/'] and is preceded, within the file name, by a character that is not
    a dot. *)
Definition os_path_splitext (p : string) : string * string :=
  match split_last_dot p with
  | Some (root, ext) =>
      if negb (contains "/" ext) && negb (all_dots (basename root))
      then (root, ext)
      else (p, EmptyString)
  | None => (p, EmptyString)
  end.

(** [s.lstrip()], [s.rstrip()] and [s.strip()] without argument: the
    characters removed are those that [ws] holds of. *)
Fixpoint lstrip_by (ws : ascii -> bool) (s : string) : string :=
  match s with
  | EmptyString => EmptyString
  | String c s' => if ws c then lstrip_by ws s' else s
  end.

Fixpoint rstrip_by (ws : ascii -> bool) (s : string) : string :=
  match s with
  | EmptyString => EmptyString
  | String c s' =>
      match rstrip_by ws s' with
      | EmptyString => if ws c then EmptyString else String c EmptyString
      | rest => String c rest
      end
  end.

Definition strip_by (ws : ascii -> bool) (s : string) : string :=
  rstrip_by ws (lstrip_by ws s).

(** [s[n:]]. *)
Fixpoint drop (n : nat) (s : string) : string :=
  match n, s with
  | S n', String _ s' => drop n' s'
  | _, _ => s
  end.

(** [s.split(sep, 1)] for a non-empty [sep]: the text before and the text
    after the first occurrence of [sep], or [s] alone. *)
Fixpoint split1 (sep s : string) : list string :=
  if prefix_of sep s then [EmptyString; drop (String.length sep) s]
  else match s with
       | EmptyString => [EmptyString]
       | String c s' =>
           match split1 sep s' with
           | piece :: pieces => String c piece :: pieces
           | [] => [String c EmptyString]
           end
       end.

End Py.

(** ** The traversal controller ([collect_all_list_items.py]) *)

Module Collect.

Definition BASE : string := "https://htsfwb.samr.gov.cn".

(** The HTML library as [extract_items_from_html] uses it:
    [soup_anchors html] lists, in document order, the pair
    [(a['href'], a.get_text(" ", strip=True))] of every element returned by
    [soup.find_all("a", href=True)]; [urljoin] is [urllib.parse.urljoin]. *)
Class HtmlLib (Html : Type) := {
  soup_anchors : Html -> list (string * string);
  urljoin : string -> string -> string
}.

(** What happens when the handle of a page control is clicked and the click
    raises: the source then tries [driver.get(href)]. *)
Inductive HrefJump := Jumped | NoHref | JumpRaised.

(** The Selenium session as the program drives it.  Every operation takes
    the browser state and returns the new one where it can change.
    - [find_data_page d n]: [find_element] on [a[data-page="n"]], [None]
      when it raises;
    - [find_by_text d n]: [find_elements] on the XPath matching link text;
    - [find_in_container d n]: lines 94-104, the scan of the anchors of
      [find_pagination_element], [None] when nothing matches or it raises;
    - [el_click d el]: scroll into view, pause, click; [false] when it
      raised;
    - [goto_href d el]: the [except] branch of lines 114-121;
    - [wait_settled d]: the explicit wait and the pause of lines 124-129;
    - [click_next d]: lines 186-190, [None] when any of them raised;
    - [pagination_numbers d]: lines 158-166, the numbers read from the
      anchors of the pagination element, [None] when there is no such
      element or reading raised. *)
Class Browser (Driver Elem Html : Type) := {
  page_source : Driver -> Html;
  find_data_page : Driver -> Z -> option Elem;
  find_by_text : Driver -> Z -> list Elem;
  find_in_container : Driver -> Z -> option Elem;
  el_click : Driver -> Elem -> Driver * bool;
  goto_href : Driver -> Elem -> Driver * HrefJump;
  wait_settled : Driver -> Driver;
  click_next : Driver -> option Driver;
  pagination_numbers : Driver -> option (list Z)
}.

(** The dict stored for a listing entry. *)
Record ItemRecord := {
  section : string;
  title : string;
  detail_url : string
}.

#[global] Instance ItemRecord_eq_dec : EqDecision ItemRecord.
Proof. solve_decision. Defined.

(** An extracted item: the pair [(title, url)]. *)
Definition Item : Type := string * string.

(** The three ways [click_page_and_collect] returns [False]. *)
Inductive NavError := NoPageElement | ClickOrJumpFailed | ClickFailed.

(** Why the [while] loop of [main] ended.  [OutOfFuel] belongs to the model
    only; [main_never_out_of_fuel] shows that it does not occur. *)
Inductive Stop := CeilingReached | NavigationAbort | NoGrowth | OutOfFuel.

#[global] Instance Stop_eq_dec : EqDecision Stop.
Proof. solve_decision. Defined.

(** One iteration of the loop as an observer sees it: the page number
    handed to [click_page_and_collect] and, unless the iteration aborted,
    the value of [new_count]. *)
Record Iteration := {
  page : Z;
  added : option Z
}.

Section Traversal.
Context {Driver Elem Html : Type}.
Context `{!HtmlLib Html, !Browser Driver Elem Html}.

(** [extract_items_from_html], lines 45-54. *)
Definition extract_items_from_html (html : Html) : list Item :=
  map (fun a => (a.2, urljoin BASE a.1))
      (filter (fun a => Py.contains "/View?id=" a.1 = true) (soup_anchors html)).

(** Lines 83-104 of [click_page_and_collect]: the handle for a page
    number, by three strategies in order. *)
Definition resolve_page_element (d : Driver) (page_num : Z) : option Elem :=
  match find_data_page d page_num with
  | Some el => Some el
  | None =>
      match find_by_text d page_num with
      | el :: _ => Some el
      | [] => find_in_container d page_num
      end
  end.

(** [click_page_and_collect], lines 81-132. *)
Definition click_page_and_collect (d : Driver) (page_num : Z)
  : Driver * (NavError + list Item) :=
  match resolve_page_element d page_num with
  | None => (d, inl NoPageElement)
  | Some el =>
      let collect (d' : Driver) :=
        let d'' := wait_settled d' in
        (d'', inr (extract_items_from_html (page_source d''))) in
      match el_click d el with
      | (d1, true) => collect d1
      | (d1, false) =>
          match goto_href d1 el with
          | (d2, Jumped) => collect d2
          | (d2, NoHref) => (d2, inl ClickOrJumpFailed)
          | (d2, JumpRaised) => (d2, inl ClickFailed)
          end
      end
  end.

Section Run.
(** [args.section] *)
Variable sect : string.

Definition record_of (t u : string) : ItemRecord :=
  {| section := sect; title := t; detail_url := u |}.

(** Lines 151-152: the first page is stored by plain assignment. *)
Definition seed_items (acc : gmap string ItemRecord) (items : list Item)
  : gmap string ItemRecord :=
  foldl (fun m it => <[it.2 := record_of it.1 it.2]> m) acc items.

(** Lines 200-204: one item of a later page; the pair is the
    accumulator and [new_count]. *)
Definition merge_item (st : gmap string ItemRecord * Z) (it : Item)
  : gmap string ItemRecord * Z :=
  match st.1 !! it.2 with
  | Some _ => st
  | None => (<[it.2 := record_of it.1 it.2]> st.1, st.2 + 1)
  end.

(** Lines 200-204: the merge of a page, [new_count] starting at 0. *)
Definition merge_items (acc : gmap string ItemRecord) (items : list Item)
  : gmap string ItemRecord * Z :=
  foldl merge_item (acc, 0) items.

(** Lines 212-217.  The counter is a local that is unbound until the
    first iteration binds it to 0; [None] is the unbound local. *)
Definition bump_consec (consec : option Z) (new_count : Z) : Z :=
  let c := default 0 consec in
  if decide (new_count = 0) then c + 1 else 0.

(** The locals of [main] that live across iterations. *)
Record LoopState := {
  driver : Driver;
  all_items : gmap string ItemRecord;
  current : Z;
  consec_no_new : option Z
}.

(** Lines 181-197: the items of this iteration, or [None] when the
    page control and the "next" control both failed. *)
Definition fetch_items (d : Driver) (cur : Z) : Driver * option (list Item) :=
  match click_page_and_collect d cur with
  | (d1, inr items) => (d1, Some items)
  | (d1, inl _) =>
      match click_next d1 with
      | Some d2 => (d2, Some (extract_items_from_html (page_source d2)))
      | None => (d1, None)
      end
  end.

(** The body of the [while] loop, lines 180-223.  The first component
    is [Some reason] when the body leaves the loop by [break]. *)
Definition loop_body (s : LoopState) : option Stop * LoopState * Iteration :=
  match fetch_items (driver s) (current s) with
  | (d, None) =>
      (Some NavigationAbort,
       {| driver := d; all_items := all_items s; current := current s;
          consec_no_new := consec_no_new s |},
       {| page := current s; added := None |})
  | (d, Some items) =>
      let '(acc, new_count) := merge_items (all_items s) items in
      let c := bump_consec (consec_no_new s) new_count in
      let it := {| page := current s; added := Some new_count |} in
      if decide (3 <= c) then
        (Some NoGrowth,
         {| driver := d; all_items := acc; current := current s;
            consec_no_new := Some c |}, it)
      else
        (None,
         {| driver := d; all_items := acc; current := current s + 1;
            consec_no_new := Some c |}, it)
  end.

(** [while current <= max_try: ...], lines 179-223, with the list of
    the iterations performed. *)
Fixpoint while_loop (fuel : nat) (max_try : Z) (s : LoopState)
  : Stop * LoopState * list Iteration :=
  if decide (current s <= max_try) then
    match fuel with
    | O => (OutOfFuel, s, [])
    | S fuel' =>
        match loop_body s with
        | (Some reason, s', it) => (reason, s', [it])
        | (None, s', it) =>
            let '(reason, s'', its) := while_loop fuel' max_try s' in
            (reason, s'', it :: its)
        end
    end
  else (CeilingReached, s, []).

(** Lines 156-170: the largest page number shown, if any. *)
Definition read_total_pages (d : Driver) : option Z :=
  match pagination_numbers d with
  | Some (n :: ns) => Some (foldl Z.max n ns)
  | _ => None
  end.

(** Line 175:
    [max_try = total_pages if (total_pages and total_pages>1) else args.max_pages]. *)
Definition ceiling (total_pages : option Z) (max_pages : Z) : Z :=
  match total_pages with
  | Some n => if decide (n ≠ 0 ∧ 1 < n) then n else max_pages
  | None => max_pages
  end.

(** [main], lines 145-223, from the browser state reached after the
    start page has loaded. *)
Definition main (max_pages : Z) (d0 : Driver)
  : Stop * LoopState * list Iteration :=
  let all0 := seed_items ∅ (extract_items_from_html (page_source d0)) in
  let max_try := ceiling (read_total_pages d0) max_pages in
  while_loop (Z.to_nat (max_try - 1)) max_try
    {| driver := d0; all_items := all0; current := 2; consec_no_new := None |}.

(** The page numbers handed to [click_page_and_collect]. *)
Definition requested (its : list Iteration) : list Z := map page its.

(** The values of [new_count], one per iteration that reached the merge. *)
Definition new_counts (its : list Iteration) : list Z := omap added its.

End Run.
End Traversal.

End Collect.

(** ** The download routine ([download_templates.py]) *)

Module Download.
Import Py.

Definition BASE : string := "https://htsfwb.samr.gov.cn".

(** [DOWNLOAD_API.format(id=..., type=...)]. *)
Definition DOWNLOAD_API (id : string) (type : Z) : string :=
  BASE +:+ "/api/File/DownTemplate?id=" +:+ id +:+ "&type=" +:+ pretty type.

(** Library functions whose tables and grammars are not part of the
    program:
    - [isalnum c] is [c.isalnum()] for a character [c];
    - [query_id url] is the [try] block of lines 59-63, that is
      [parse_qs(urlparse(url).query).get("id", [None])[0]], or [None] when
      that raises. *)
Class PyLib := {
  isalnum : ascii -> bool;
  query_id : string -> option string
}.

(** The body of a response as the program can read it: the chunks that the
    stream delivers and, when the transfer breaks, the message of the
    exception raised once they are delivered. *)
Record Response := {
  status_code : Z;
  content_type : option string;
  content_disposition : option string;
  chunks : list (list byte);
  stream_error : option string;
  raw_seek_error : option string
}.

(** [content_type] and [content_disposition] are the two headers read with
    [r.headers.get(name, "")]; [raw_seek_error] is [Some msg] when
    [r.raw.seek(0)] raises an exception whose text is [msg].  The raw stream
    of a response obtained with [stream=True] is a [urllib3] response
    object, an [io.IOBase] without [seek]: for it the call raises
    [io.UnsupportedOperation] with the text [seek]. *)
Inductive NetResult :=
  | Raised (msg : string)
  | Replied (r : Response).

Record Request := {
  req_url : string;
  req_referer : string
}.

(** The session: what [session.get] answers to a request, given the requests
    made before it. *)
Record Session := {
  get : list Request -> Request -> NetResult
}.

(** The observable world of [download_one]: the files on disk (regular files
    only, by path), the requests sent and the delays slept, both in order.
    File-system calls themselves are taken to succeed. *)
Record World := {
  fs : gmap string (list byte);
  requests : list Request;
  sleeps : list Q
}.

(** The second component of the value returned by [download_one]: a message
    or the list [saved]. *)
Inductive Info :=
  | Msg (s : string)
  | Saved (paths : list string).

(** [time.sleep(1 + attempt*1.5)]: the delay, in seconds. *)
Definition sleep_delay (attempt : Z) : Q := (1 + inject_Z attempt * (3 # 2))%Q.

Definition do_sleep (attempt : Z) (w : World) : World :=
  {| fs := fs w; requests := requests w; sleeps := sleeps w ++ [sleep_delay attempt] |}.

Definition set_fs (f : gmap string (list byte)) (w : World) : World :=
  {| fs := f; requests := requests w; sleeps := sleeps w |}.

(** [open(path, "wb")] followed by the writes of [data] and the close. *)
Definition write_file (path : string) (data : list byte) (f : gmap string (list byte))
  : gmap string (list byte) :=
  <[path := data]> f.

(** [fh.write(chunk)] on the file opened at [path]. *)
Definition append_file (path : string) (chunk : list byte) (f : gmap string (list byte))
  : gmap string (list byte) :=
  <[path := default [] (f !! path) ++ chunk]> f.

(** Lines 149-152: the file is opened (and so emptied), then every non-empty
    chunk is written. *)
Definition write_chunks (path : string) (cs : list (list byte)) (f : gmap string (list byte))
  : gmap string (list byte) :=
  foldl (fun g chunk => match chunk with [] => g | _ => append_file path chunk g end)
        (write_file path [] f) cs.

(** [os.replace(src, dst)]. *)
Definition os_replace (src dst : string) (f : gmap string (list byte))
  : gmap string (list byte) :=
  match f !! src with
  | Some data => <[dst := data]> (delete src f)
  | None => f
  end.

(** [r.content] (and the bytes behind [r.text]): the whole body, or the
    exception of a broken transfer. *)
Definition read_content (r : Response) : string + list byte :=
  match stream_error r with
  | Some e => inl e
  | None => inr (concat (chunks r))
  end.

(** [r.raw.read(8)]. *)
Definition raw_read8 (r : Response) : string + list byte :=
  let body := concat (chunks r) in
  if decide (8 <= length body)%nat then inr (firstn 8 body)
  else match stream_error r with
       | Some e => inl e
       | None => inr body
       end.

(** [b'%PDF'] *)
Definition PDF_MAGIC : list byte := [x25; x50; x44; x46].

Fixpoint bytes_startswith (p b : list byte) : bool :=
  match p, b with
  | [], _ => true
  | x :: p', y :: b' => if Byte.eqb x y then bytes_startswith p' b' else false
  | _ :: _, [] => false
  end.

Definition WORDML : string := "officedocument.wordprocessingml.document".

(** The characters stripped from the disposition file name: the space and
    the double quote. *)
Definition QUOTE_SPACE : string := String " "%char (String (ascii_of_nat 34) EmptyString).

(** Lines 100-120: the extension chosen for a response with status 200.
    [inl msg] is an exception raised on the way, [inr None] is [ext = None]. *)
Definition choose_ext (r : Response) (ctype : string) : string + option string :=
  if contains "pdf" ctype then inr (Some ".pdf")
  else if contains WORDML ctype || contains "word" ctype || contains "msword" ctype then
    if contains WORDML ctype then inr (Some ".docx") else inr (Some ".doc")
  else
    let cd := default "" (content_disposition r) in
    if contains "filename=" cd then
      let fname := strip QUOTE_SPACE (split_last "filename=" cd) in
      let e := (os_path_splitext fname).2 in
      inr (Some (if decide (e = "") then ".bin" else e))
    else
      match raw_read8 r with
      | inl msg => inl msg
      | inr head =>
          match raw_seek_error r with
          | Some msg => inl msg
          | None => if bytes_startswith PDF_MAGIC head then inr (Some ".pdf") else inr None
          end
      end.

Section WithLib.
Context `{!PyLib}.

(** [safe_filename], lines 29-31. *)
Fixpoint sanitize (s : string) : string :=
  match s with
  | EmptyString => EmptyString
  | String c s' =>
      String (if isalnum c || char_in c " ._-()" then c else "_"%char) (sanitize s')
  end.

Definition safe_filename (s : string) : string := take 180 (sanitize s).

(** Lines 58-68: the resource id, or a falsy value. *)
Definition extract_uid (detail_url : string) : option string :=
  let uid := query_id detail_url in
  if truthy uid then uid
  else if contains "id=" detail_url
       then Some (split_first "&" (split_last "id=" detail_url))
       else uid.

(** Lines 137-146: the output path for an accepted response. *)
Definition choose_outpath (f : gmap string (list byte)) (outdir sect title uid ext : string)
  : string :=
  let safe_title := safe_filename title in
  let save_dir := os_path_join outdir sect in
  let filename := safe_title +:+ ext in
  let outpath := os_path_join save_dir filename in
  match f !! outpath with
  | Some _ =>
      let '(base, e) := os_path_splitext filename in
      os_path_join save_dir (base +:+ "_" +:+ uid +:+ e)
  | None => outpath
  end.

(** The parameters of [download_one] that stay fixed during the attempts
    for one record. *)
Record Job := {
  job_outdir : string;
  job_detail_url : string;
  job_title : string;
  job_section : string;
  job_uid : string
}.

(** Lines 75-78 and 83: the request for one type, with the detail page as
    referer. *)
Definition request_of (j : Job) (typ_num : Z) : Request :=
  {| req_url := DOWNLOAD_API (job_uid j) typ_num;
     req_referer := job_detail_url j |}.

(** One pass through the body of [for attempt in range(retries+1)], lines
    82-160: [inr outpath] when the payload was saved ([break]), [inl last_err]
    when the attempt failed ([continue]). *)
Definition attempt_once (session : Session) (j : Job) (typ_num attempt : Z) (w : World)
  : World * (string + string) :=
  let req := request_of j typ_num in
  let w1 := {| fs := fs w; requests := requests w ++ [req]; sleeps := sleeps w |} in
  let debug_dir := os_path_join (job_outdir j) "debug_html" in
  match get session (requests w) req with
  | Raised msg => (do_sleep attempt w1, inl msg)
  | Replied r =>
      let ctype := lower (default "" (content_type r)) in
      if decide (status_code r ≠ 200) then
        let name := job_uid j +:+ "_" +:+ pretty typ_num +:+ "_status"
                    +:+ pretty (status_code r) +:+ ".html" in
        let w2 := match read_content r with
                  | inr text => set_fs (write_file (os_path_join debug_dir name) text (fs w1)) w1
                  | inl _ => w1
                  end in
        (do_sleep attempt w2, inl ("status " +:+ pretty (status_code r)))
      else
        match choose_ext r ctype with
        | inl msg => (do_sleep attempt w1, inl msg)
        | inr None =>
            match read_content r with
            | inl msg => (do_sleep attempt w1, inl msg)
            | inr body =>
                let name := job_uid j +:+ "_" +:+ pretty typ_num +:+ "_notbinary.html" in
                let w2 := set_fs (write_file (os_path_join debug_dir name) body (fs w1)) w1 in
                (do_sleep attempt w2, inl "not_binary_content")
            end
        | inr (Some ext) =>
            let outpath := choose_outpath (fs w1) (job_outdir j) (job_section j)
                             (job_title j) (job_uid j) ext in
            let part := outpath +:+ ".part" in
            let w2 := set_fs (write_chunks part (chunks r) (fs w1)) w1 in
            match stream_error r with
            | Some msg => (do_sleep attempt w2, inl msg)
            | None => (set_fs (os_replace part outpath (fs w2)) w2, inr outpath)
            end
        end
  end.

(** [for attempt in range(retries+1)], lines 81-160, for the [n] indices
    from [attempt] on: the world, the saved path if an attempt succeeded,
    and [last_err]. *)
Fixpoint attempt_loop (session : Session) (j : Job) (typ_num : Z)
    (n : nat) (attempt : Z) (last_err : option string) (w : World)
  : World * option string * option string :=
  match n with
  | O => (w, None, last_err)
  | S n' =>
      match attempt_once session j typ_num attempt w with
      | (w', inr outpath) => (w', Some outpath, last_err)
      | (w', inl msg) => attempt_loop session j typ_num n' (attempt + 1) (Some msg) w'
      end
  end.

(** Line 74. *)
Definition type_code (t : string) : Z := if decide (lower t = "pdf") then 2 else 1.

(** Lines 73-163 for one [t]: all the attempts for that type. *)
Definition try_type (session : Session) (j : Job) (retries : Z) (t : string) (w : World)
  : World * option string * option string :=
  attempt_loop session j (type_code t) (Z.to_nat (retries + 1)) 0 None w.

(** [for t in types], lines 73-164. *)
Fixpoint types_loop (session : Session) (j : Job) (retries : Z)
    (types : list string) (saved : list string) (w : World)
  : World * (bool * Info) :=
  match types with
  | [] => (w, (true, Saved saved))
  | t :: types' =>
      match try_type session j retries t w with
      | (w', Some outpath, _) =>
          types_loop session j retries types' (saved ++ [outpath]) w'
      | (w', None, last_err) =>
          (w', (false, Msg ("fail_" +:+ t +:+ ":" +:+ str_of last_err)))
      end
  end.

(** Line 51. *)
Definition entry_detail_url (entry : gmap string string) : option string :=
  or_else (or_else (entry !! "detail_url") (entry !! "file_url")) (entry !! "detail").

(** Line 52. *)
Definition entry_title (entry : gmap string string) : string :=
  default "item" (or_else (or_else (entry !! "title") (entry !! "name")) (Some "item")).

(** Line 53. *)
Definition entry_section (entry : gmap string string) : string :=
  default "unknown" (or_else (entry !! "section") (Some "unknown")).

(** [download_one(session, entry, outdir, types, timeout, retries)], lines
    46-164, as a function of the world it starts in.  The [timeout] only
    shapes what the session answers. *)
Definition download_one (session : Session) (entry : gmap string string)
    (outdir : string) (types : list string) (retries : Z) (w : World)
  : World * (bool * Info) :=
  match entry_detail_url entry with
  | Some (String c u) =>
      let detail_url := String c u in
      match extract_uid detail_url with
      | Some (String d i) =>
          let j := {| job_outdir := outdir; job_detail_url := detail_url;
                      job_title := entry_title entry;
                      job_section := entry_section entry;
                      job_uid := String d i |} in
          types_loop session j retries types [] w
      | _ => (w, (false, Msg "no_id"))
      end
  | _ => (w, (false, Msg "no_detail_url"))
  end.

End WithLib.

(** [isspace c] is [c.isspace()], which decides what [strip()] removes. *)
Class StrLib := {
  isspace : ascii -> bool
}.

Section Glue.
Context `{!StrLib}.

(** The body of the loop of [parse_cookie_string], lines 24-26.  [None] is
    the [ValueError] raised when the unpacking [k,v = ...] does not get two
    pieces. *)
Definition add_cookie (cookies : option (gmap string string)) (part : string)
  : option (gmap string string) :=
  match cookies with
  | None => None
  | Some m =>
      if contains "=" part then
        match split1 "=" (strip_by isspace part) with
        | [k; v] => Some (<[k := v]> m)
        | _ => None
        end
      else Some m
  end.

(** [parse_cookie_string], lines 21-27. *)
Definition parse_cookie_string (cookie_str : string) : option (gmap string string) :=
  foldl add_cookie (Some ∅) (split ";" cookie_str).

(** Lines 175-177 of [main]: the list of types from [--types]. *)
Definition main_types (arg : string) : list string :=
  let types := map (fun t => lower (strip_by isspace t))
                   (filter (fun t => strip_by isspace t <> "") (split "," arg)) in
  match types with
  | [] => ["pdf"]
  | _ => types
  end.

End Glue.

(** *** The attempt with a file system that can refuse *)

(** The calls to the file system that can raise in the body of the attempt
    loop. *)
Inductive FsCall :=
  | MakeDirs (path : string)
  | OpenWrite (path : string)
  | WriteChunk (path : string)
  | Replace (src dst : string).

(** What lies outside the program and the network:
    - [fs_error f call] is [Some msg] when [call], made while the files are
      [f], raises an [OSError] whose text is [msg] (a missing directory for
      a name with a ['/'] in it, a name too long, no permission, a full
      disk), and [None] when it returns;
    - [text_utf8 r] is [r.text] encoded in UTF-8: the bytes that
      [fh.write(text)] puts in a file opened with [encoding="utf-8"]. *)
Record Env := {
  fs_error : gmap string (list byte) -> FsCall -> option string;
  text_utf8 : Response -> list byte
}.

(** [with open(path, ...) as fh: fh.write(data)] inside [try: ... except
    Exception: pass], lines 91-96 and 127-131: an error leaves what was done
    before it. *)
Definition write_debug (env : Env) (path : string) (data : list byte)
    (f : gmap string (list byte)) : gmap string (list byte) :=
  match fs_error env f (OpenWrite path) with
  | Some _ => f
  | None =>
      let opened := write_file path [] f in
      match fs_error env opened (WriteChunk path) with
      | Some _ => opened
      | None => write_file path data opened
      end
  end.

(** Lines 150-152 on the file already opened at [path]: the files after the
    loop and the error of the write that raised, if one did. *)
Fixpoint write_chunks_io (env : Env) (path : string) (cs : list (list byte))
    (f : gmap string (list byte)) : gmap string (list byte) * option string :=
  match cs with
  | [] => (f, None)
  | chunk :: cs' =>
      match chunk with
      | [] => write_chunks_io env path cs' f
      | _ =>
          match fs_error env f (WriteChunk path) with
          | Some msg => (f, Some msg)
          | None => write_chunks_io env path cs' (append_file path chunk f)
          end
      end
  end.

Section WithEnv.
Context `{!PyLib}.

(** The body of [for attempt in range(retries+1)], lines 82-160, with every
    exception of the file system taken where the source takes it: by the
    inner [except Exception: pass] for the debug pages, by the outer
    [except Exception as e] for everything else. *)
Definition attempt_once_io (env : Env) (session : Session) (j : Job)
    (typ_num attempt : Z) (w : World) : World * (string + string) :=
  let req := request_of j typ_num in
  let w1 := {| fs := fs w; requests := requests w ++ [req]; sleeps := sleeps w |} in
  let debug_dir := os_path_join (job_outdir j) "debug_html" in
  let failed (f : gmap string (list byte)) (msg : string) :=
    (do_sleep attempt (set_fs f w1), inl msg) in
  match get session (requests w) req with
  | Raised msg => failed (fs w1) msg
  | Replied r =>
      let ctype := lower (default "" (content_type r)) in
      if decide (status_code r ≠ 200) then
        match fs_error env (fs w1) (MakeDirs debug_dir) with
        | Some msg => failed (fs w1) msg
        | None =>
            let name := job_uid j +:+ "_" +:+ pretty typ_num +:+ "_status"
                        +:+ pretty (status_code r) +:+ ".html" in
            let f2 := match read_content r with
                      | inr _ => write_debug env (os_path_join debug_dir name)
                                   (text_utf8 env r) (fs w1)
                      | inl _ => fs w1
                      end in
            failed f2 ("status " +:+ pretty (status_code r))
        end
      else
        match choose_ext r ctype with
        | inl msg => failed (fs w1) msg
        | inr None =>
            match fs_error env (fs w1) (MakeDirs debug_dir) with
            | Some msg => failed (fs w1) msg
            | None =>
                match read_content r with
                | inl msg => failed (fs w1) msg
                | inr body =>
                    let name := job_uid j +:+ "_" +:+ pretty typ_num
                                +:+ "_notbinary.html" in
                    failed (write_debug env (os_path_join debug_dir name) body (fs w1))
                           "not_binary_content"
                end
            end
        | inr (Some ext) =>
            let save_dir := os_path_join (job_outdir j) (job_section j) in
            match fs_error env (fs w1) (MakeDirs save_dir) with
            | Some msg => failed (fs w1) msg
            | None =>
                let outpath := choose_outpath (fs w1) (job_outdir j) (job_section j)
                                 (job_title j) (job_uid j) ext in
                let part := outpath +:+ ".part" in
                match fs_error env (fs w1) (OpenWrite part) with
                | Some msg => failed (fs w1) msg
                | None =>
                    match write_chunks_io env part (chunks r)
                            (write_file part [] (fs w1)) with
                    | (f2, Some msg) => failed f2 msg
                    | (f2, None) =>
                        match stream_error r with
                        | Some msg => failed f2 msg
                        | None =>
                            match fs_error env f2 (Replace part outpath) with
                            | Some msg => failed f2 msg
                            | None =>
                                (set_fs (os_replace part outpath f2) w1, inr outpath)
                            end
                        end
                    end
                end
            end
        end
  end.

End WithEnv.

End Download.

(** ** Concrete scenarios *)

Module Scenarios.
Import Py.

(** *** A scripted listing site *)

(** The page content is the list of its anchors, taken as parsed; relative
    links are resolved by concatenation. *)
#[global] Instance scripted_html : Collect.HtmlLib (list (string * string)) := {|
  Collect.soup_anchors := fun html => html;
  Collect.urljoin := fun base href => base +:+ href
|}.

(** A browser whose state is the number of the page displayed.  Page [n]
    shows the anchors [site n]; the control for page [n] exists for
    [1 <= n <= last_page] and clicking it displays that page; [numbers] is
    what the pagination element shows. *)
Definition scripted_browser (site : Z -> list (string * string))
    (numbers : option (list Z)) (last_page : Z)
  : Collect.Browser Z Z (list (string * string)) := {|
  Collect.page_source := site;
  Collect.find_data_page := fun _ n => if decide (1 <= n <= last_page) then Some n else None;
  Collect.find_by_text := fun _ _ => [];
  Collect.find_in_container := fun _ _ => None;
  Collect.el_click := fun _ el => (el, true);
  Collect.goto_href := fun d _ => (d, Collect.NoHref);
  Collect.wait_settled := fun d => d;
  Collect.click_next := fun _ => None;
  Collect.pagination_numbers := fun _ => numbers
|}.

(** Every page shows the same two entries, no page count is shown. *)
Definition stale_site_page : list (string * string) :=
  [("/View?id=a", "Contract A"); ("/View?id=b", "Contract B"); ("/About", "About")].

Definition stale_site (_ : Z) : list (string * string) := stale_site_page.

Definition stale_browser := scripted_browser stale_site None 50.

(** Page [n] shows one entry of its own; the pagination shows 1 to 5 although
    more pages exist. *)
Definition growing_site (n : Z) : list (string * string) :=
  [("/View?id=" +:+ pretty n, "Contract")].

Definition growing_browser := scripted_browser growing_site (Some [1; 2; 3; 4; 5]) 100.

(** *** Download scenarios *)

(** Letters and digits of ASCII are alphanumeric; the resource id is the
    value of a leading [id] parameter of the query. *)
#[global] Instance ascii_lib : Download.PyLib := {|
  Download.isalnum := fun c =>
    let n := nat_of_ascii c in
    bool_decide (48 <= n <= 57 \/ 65 <= n <= 90 \/ 97 <= n <= 122)%nat;
  Download.query_id := fun url =>
    if contains "?id=" url
    then Some (split_first "&" (split_last "?id=" url))
    else None
|}.

Definition empty_world : Download.World :=
  {| Download.fs := ∅; Download.requests := []; Download.sleeps := [] |}.

Definition lease_entry : gmap string string :=
  <["detail_url" := "https://htsfwb.samr.gov.cn/View?id=42"]>
  (<["title" := "Lease contract"]> (<["section" := "national"]> ∅)).

Definition lease_job : Download.Job :=
  {| Download.job_outdir := "out";
     Download.job_detail_url := "https://htsfwb.samr.gov.cn/View?id=42";
     Download.job_title := "Lease contract";
     Download.job_section := "national";
     Download.job_uid := "42" |}.

Definition reply (status : Z) (ctype : option string) (body : list (list byte))
    (broken seek : option string) : Download.NetResult :=
  Download.Replied
    {| Download.status_code := status; Download.content_type := ctype;
       Download.content_disposition := None; Download.chunks := body;
       Download.stream_error := broken; Download.raw_seek_error := seek |}.

(** The bytes of [%PDF-1.4] and of a second chunk. *)
Definition pdf_head : list byte := [x25; x50; x44; x46; x2d; x31; x2e; x34].
Definition pdf_tail : list byte := [x0a; x25; x25; x45; x4f; x46].

(** Every request is refused with status 403. *)
Definition forbidden_session : Download.Session :=
  {| Download.get := fun _ _ => reply 403 (Some "text/html") [[x6e; x6f]] None (Some "seek") |}.

(** Every request is answered by a PDF declared as such; the body tells the
    answers apart: its last byte counts the requests made before. *)
Definition pdf_session : Download.Session :=
  {| Download.get := fun hist _ =>
       reply 200 (Some "application/pdf")
             [pdf_head; [default x00 (Byte.of_nat (length hist))]] None (Some "seek") |}.

(** PDF requests succeed, Word requests are refused. *)
Definition pdf_only_session : Download.Session :=
  {| Download.get := fun _ req =>
       if contains "type=2" (Download.req_url req)
       then reply 200 (Some "application/pdf") [pdf_head; pdf_tail] None (Some "seek")
       else reply 403 (Some "text/html") [[x6e; x6f]] None (Some "seek") |}.

(** A PDF sent without any header, over a stream that cannot seek, as the
    HTTP library delivers it. *)
Definition bare_pdf_session : Download.Session :=
  {| Download.get := fun _ _ => reply 200 None [pdf_head; pdf_tail] None (Some "seek") |}.

(** The same answer from a test double whose raw stream can be rewound. *)
Definition rewindable_pdf_session : Download.Session :=
  {| Download.get := fun _ _ => reply 200 None [pdf_head; pdf_tail] None None |}.

(** A declared PDF whose transfer breaks after the first chunk. *)
Definition broken_session : Download.Session :=
  {| Download.get := fun _ _ =>
       reply 200 (Some "application/pdf") [pdf_head] (Some "Connection broken")
             (Some "seek") |}.

(** A disk on which the plain name is taken. *)
Definition taken_world : Download.World :=
  {| Download.fs := <["out/national/Lease contract.pdf" := [x01]]> ∅;
     Download.requests := []; Download.sleeps := [] |}.

(** A record whose link carries no id. *)
Definition about_entry : gmap string string :=
  <["detail_url" := "https://htsfwb.samr.gov.cn/About"]> ∅.

(** A disk on which the plain name and the name with the id both exist. *)
Definition crowded_world : Download.World :=
  {| Download.fs := <["out/national/Lease contract.pdf" := [x01]]>
                    (<["out/national/Lease contract_42.pdf" := [x02]]> ∅);
     Download.requests := []; Download.sleeps := [] |}.

(** A status 404 whose headers and body are those of a PDF. *)
Definition missing_pdf_session : Download.Session :=
  {| Download.get := fun _ _ =>
       reply 404 (Some "application/pdf") [pdf_head; pdf_tail] None (Some "seek") |}.




(** A file system that raises nothing, with bodies that are their own
    UTF-8 text. *)
Definition reliable_env : Download.Env :=
  {| Download.fs_error := fun _ _ => None;
     Download.text_utf8 := fun r => concat (Download.chunks r) |}.

(** A file system in which no file can be opened for writing. *)
Definition readonly_env : Download.Env :=
  {| Download.fs_error := fun _ call =>
       match call with
       | Download.OpenWrite _ => Some "Permission denied"
       | _ => None
       end;
     Download.text_utf8 := fun r => concat (Download.chunks r) |}.

(** Bodies read as Latin-1: a byte from 128 on becomes two bytes of
    UTF-8. *)
Definition latin1_to_utf8 (b : byte) : list byte :=
  let n := Byte.to_N b in
  if decide (n < 128)%N then [b]
  else [default x00 (Byte.of_N (192 + n / 64)); default x00 (Byte.of_N (128 + n mod 64))].

Definition latin1_env : Download.Env :=
  {| Download.fs_error := fun _ _ => None;
     Download.text_utf8 := fun r => flat_map latin1_to_utf8 (concat (Download.chunks r)) |}.

(** A status 404 whose body is the four bytes of [caf] and e-acute in
    Latin-1. *)
Definition cafe_session : Download.Session :=
  {| Download.get := fun _ _ =>
       reply 404 (Some "text/html; charset=ISO-8859-1") [[x63; x61; x66; xe9]] None
             (Some "seek") |}.



(** White space as [str.isspace] has it on ASCII. *)
#[global] Instance ascii_space : Download.StrLib := {|
  Download.isspace := fun c =>
    let n := nat_of_ascii c in
    bool_decide (9 <= n <= 13 \/ 28 <= n <= 32)%nat
|}.

End Scenarios.

(** ** Notions used to state the properties *)

Module Notions.

(** The value of the no-growth counter after the values [ns] of [new_count],
    starting from [c]. *)
Definition counter_after (c : Z) (ns : list Z) : Z :=
  foldl (fun c n => if decide (n = 0) then c + 1 else 0) c ns.


(** C1 as worded: when the attempts for [t] are exhausted, the type [t']
    listed after it is still attempted, so that more requests are sent than
    the attempts for [t] alone send. *)
Definition continues_after_failure `{!Download.PyLib} (session : Download.Session)
    (j : Download.Job) (retries : Z) (t t' : string) (w : Download.World) : Prop :=
  (Download.try_type session j retries t w).1.2 = None ->
  (length (Download.requests (Download.try_type session j retries t w).1.1) <
   length (Download.requests (Download.types_loop session j retries [t; t'] [] w).1))%nat.

(** C7 as worded: an accepted payload is never saved over an existing file. *)
Definition save_never_overwrites `{!Download.PyLib} (session : Download.Session)
    (j : Download.Job) (typ_num attempt : Z) (w : Download.World) : Prop :=
  forall w' outpath,
    Download.attempt_once session j typ_num attempt w = (w', inr outpath) ->
    Download.fs w !! outpath = None.

(** What holds of every dict built by [parse_cookie_string]. *)
Definition cookie_ok (m : gmap string string) : Prop :=
  forall k v, m !! k = Some v ->
              Py.char_in "="%char k = false /\ Py.char_in ";"%char k = false /\
              Py.char_in ";"%char v = false.

(** The cookie header made of the pairs [k=v] joined by a semicolon and a
    space, as browsers show it. *)
Fixpoint cookie_string (pairs : list (string * string)) : string :=
  match pairs with
  | [] => ""
  | (k, v) :: rest =>
      match rest with
      | [] => k +:+ "=" +:+ v
      | _ => k +:+ "=" +:+ v +:+ "; " +:+ cookie_string rest
      end
  end.

(** A pair that a cookie header can carry unchanged: no semicolon in it, no
    equals sign in the name, no white space before the name or after the
    value. *)
Definition clean_cookie `{!Download.StrLib} (kv : string * string) : Prop :=
  Py.char_in ";"%char kv.1 = false /\ Py.char_in "="%char kv.1 = false /\
  Py.char_in ";"%char kv.2 = false /\
  Py.lstrip_by Download.isspace kv.1 = kv.1 /\
  Py.rstrip_by Download.isspace kv.2 = kv.2.

End Notions.

(** * Properties of the traversal controller *)

Module CollectFacts.
Import Collect Notions.

(** ** The no-growth counter as a function of the history of [new_count] *)

Arguments counter_after : simpl never.

Lemma new_counts_cons_some (it : Iteration) (its : list Iteration) (n : Z) :
  added it = Some n -> new_counts (it :: its) = n :: new_counts its.
Proof. unfold new_counts. simpl. by intros ->. Qed.

Lemma new_counts_cons_none (it : Iteration) (its : list Iteration) :
  added it = None -> new_counts (it :: its) = new_counts its.
Proof. unfold new_counts. simpl. by intros ->. Qed.

Lemma new_counts_nil : new_counts [] = [].
Proof. done. Qed.

Lemma counter_after_nil c : counter_after c [] = c.
Proof. done. Qed.

Ltac norm_nil := rewrite ?new_counts_nil, ?counter_after_nil.

Lemma counter_after_snoc c ns n :
  counter_after c (ns ++ [n]) = if decide (n = 0) then counter_after c ns + 1 else 0.
Proof. unfold counter_after. by rewrite foldl_app. Qed.

Lemma counter_after_nonneg c ns : 0 <= c -> 0 <= counter_after c ns.
Proof.
  unfold counter_after.
  revert c. induction ns as [|n ns IH]; intros c Hc; simpl; [done|].
  apply IH. case_decide; lia.
Qed.

Lemma counter_after_zeros (m : nat) (ns : list Z) :
  Z.of_nat m <= counter_after 0 ns <-> replicate m 0 `suffix_of` ns.
Proof.
  revert ns. induction m as [|m IH]; intros ns.
  - split; intros _; [apply suffix_nil | by apply counter_after_nonneg].
  - destruct (decide (ns = [])) as [->|Hne].
    + unfold counter_after. simpl. split; [lia|]. intros [k Hk]. by destruct k.
    + destruct (exists_last Hne) as (ns' & n & ->).
      rewrite counter_after_snoc, replicate_S_end.
      case_decide as Hn.
      * subst n. split.
        -- intros Hle. apply suffix_app, IH. lia.
        -- intros Hs. apply suffix_snoc_inv_2, IH in Hs. lia.
      * split; [lia|]. intros Hs. apply suffix_snoc_inv_1 in Hs. congruence.
Qed.

Section Loop.
Context {Driver Elem Html : Type}.
Context `{!HtmlLib Html, !Browser Driver Elem Html}.
Variable sect : string.

(** ** The merge of a page *)

Lemma merge_fold_lookup (items : list Item) (st : gmap string ItemRecord * Z) u r :
  st.1 !! u = Some r -> (foldl (merge_item sect) st items).1 !! u = Some r.
Proof.
  revert st. induction items as [|it items IH]; intros st Hu; simpl; [done|].
  apply IH. unfold merge_item.
  destruct (st.1 !! it.2) eqn:Hit; simpl; [done|].
  rewrite lookup_insert_ne; [done|]. intros Heq. rewrite Heq in Hit. congruence.
Qed.

Lemma merge_fold_covers (items : list Item) (st : gmap string ItemRecord * Z) it :
  it ∈ items -> is_Some ((foldl (merge_item sect) st items).1 !! it.2).
Proof.
  revert st. induction items as [|it' items IH]; intros st Hin; simpl.
  - by apply elem_of_nil in Hin.
  - apply elem_of_cons in Hin as [->|Hin]; [|by apply IH].
    assert (is_Some ((merge_item sect st it').1 !! it'.2)) as [r Hr].
    { unfold merge_item. destruct (st.1 !! it'.2) eqn:Hit; simpl; [by rewrite Hit|].
      rewrite lookup_insert_eq. eauto. }
    exists r. by apply merge_fold_lookup.
Qed.

Lemma merge_fold_known (items : list Item) (st : gmap string ItemRecord * Z) :
  (forall it, it ∈ items -> is_Some (st.1 !! it.2)) ->
  foldl (merge_item sect) st items = st.
Proof.
  revert st. induction items as [|it items IH]; intros st Hall; simpl; [done|].
  assert (merge_item sect st it = st) as ->.
  { unfold merge_item. destruct (Hall it) as [r ->]; [apply list_elem_of_here|done]. }
  apply IH. intros it' Hin. apply Hall. by apply list_elem_of_further.
Qed.

Lemma merge_fold_count (items : list Item) (st : gmap string ItemRecord * Z) :
  (foldl (merge_item sect) st items).2 - st.2 =
  Z.of_nat (size (foldl (merge_item sect) st items).1) - Z.of_nat (size st.1).
Proof.
  revert st. induction items as [|it items IH]; intros st; simpl; [lia|].
  pose proof (IH (merge_item sect st it)) as Hrest.
  assert ((merge_item sect st it).2 - st.2 =
          Z.of_nat (size (merge_item sect st it).1) - Z.of_nat (size st.1)) as Hstep.
  { unfold merge_item. destruct (st.1 !! it.2) eqn:Hit; simpl; [lia|].
    rewrite map_size_insert_None by done. lia. }
  lia.
Qed.

Lemma merge_items_twice (acc : gmap string ItemRecord) (items : list Item) :
  merge_items sect (merge_items sect acc items).1 items = ((merge_items sect acc items).1, 0).
Proof.
  unfold merge_items at 1. apply merge_fold_known. simpl.
  intros it Hin. by apply merge_fold_covers.
Qed.

Lemma merge_items_subseteq (acc : gmap string ItemRecord) (items : list Item) :
  acc ⊆ (merge_items sect acc items).1.
Proof.
  apply map_subseteq_spec. intros u r Hu. by apply merge_fold_lookup.
Qed.

Lemma merge_items_count_nonneg (acc : gmap string ItemRecord) (items : list Item) :
  0 <= (merge_items sect acc items).2.
Proof.
  pose proof (merge_fold_count items (acc, 0)) as Hc. simpl in Hc.
  pose proof (map_subseteq_size _ _ (merge_items_subseteq acc items)) as Hs.
  unfold merge_items in *. lia.
Qed.

(** ** The first page *)

(** Seeding adds to the accumulator a map that depends on the items only. *)
Lemma seed_items_union (items : list Item) :
  exists added : gmap string ItemRecord,
    forall acc, seed_items sect acc items = added ∪ acc.
Proof.
  induction items as [|it items [added IH]].
  - exists ∅. intros acc. simpl. by rewrite map_empty_union.
  - exists (added ∪ {[ it.2 := record_of sect it.1 it.2 ]}). intros acc.
    change (seed_items sect acc (it :: items))
      with (seed_items sect (<[it.2 := record_of sect it.1 it.2]> acc) items).
    by rewrite IH, insert_union_singleton_l, map_union_assoc.
Qed.

(** Feeding the first page twice changes nothing either. *)
Lemma seed_items_twice (acc : gmap string ItemRecord) (items : list Item) :
  seed_items sect (seed_items sect acc items) items = seed_items sect acc items.
Proof.
  destruct (seed_items_union items) as [added Hadd].
  rewrite !Hadd, map_union_assoc. f_equal. apply map_eq. intros u.
  rewrite lookup_union. by destruct (added !! u).
Qed.

(** Within the first page the assignment is unconditional: of two anchors
    with the same URL the later one gives the stored title. *)
Lemma seed_items_last_wins (acc : gmap string ItemRecord) (items : list Item)
    (t u : string) :
  seed_items sect acc (items ++ [(t, u)]) !! u = Some (record_of sect t u).
Proof.
  unfold seed_items. rewrite foldl_app. simpl. apply lookup_insert_eq.
Qed.

(** ** One iteration *)

Lemma loop_body_inv (s s' : LoopState) (o : option Stop) (it : Iteration) :
  loop_body sect s = (o, s', it) ->
  page it = current s /\ all_items s ⊆ all_items s' /\
  match o with
  | None =>
      exists n, added it = Some n /\ current s' = current s + 1 /\
                consec_no_new s' = Some (bump_consec (consec_no_new s) n) /\
                bump_consec (consec_no_new s) n < 3
  | Some reason =>
      current s' = current s /\
      ((reason = NavigationAbort /\ added it = None /\
        consec_no_new s' = consec_no_new s) \/
       (reason = NoGrowth /\
        exists n, added it = Some n /\
                  consec_no_new s' = Some (bump_consec (consec_no_new s) n) /\
                  3 <= bump_consec (consec_no_new s) n))
  end.
Proof.
  unfold loop_body.
  destruct (fetch_items (driver s) (current s)) as [d [items|]].
  - pose proof (merge_items_subseteq (all_items s) items) as Hsub.
    destruct (merge_items sect (all_items s) items) as [acc n].
    case_decide as Hc; intros [= <- <- <-]; simpl in *;
      (split; [done|split; [done|]]).
    + split; [done|]. right. split; [done|]. by exists n.
    + exists n. repeat split; try done. lia.
  - intros [= <- <- <-]. simpl. split; [done|]. split; [done|].
    split; [done|]. by left.
Qed.

Lemma bump_consec_step (c : option Z) (n : Z) (ns : list Z) :
  counter_after (default 0 c) (n :: ns) = counter_after (bump_consec c n) ns.
Proof. done. Qed.

Lemma bump_consec_nonneg (c : option Z) (n : Z) :
  0 <= default 0 c -> 0 <= bump_consec c n.
Proof. unfold bump_consec. case_decide; lia. Qed.

(** ** The loop *)

Lemma while_loop_inv (fuel : nat) (max_try : Z) (s s' : LoopState)
    (stop : Stop) (its : list Iteration) :
  while_loop sect fuel max_try s = (stop, s', its) ->
  0 <= default 0 (consec_no_new s) < 3 ->
  Forall (fun it => current s <= page it <= max_try) its /\
  all_items s ⊆ all_items s' /\
  (stop = NoGrowth -> 3 <= counter_after (default 0 (consec_no_new s)) (new_counts its)) /\
  (stop <> NoGrowth -> counter_after (default 0 (consec_no_new s)) (new_counts its) < 3) /\
  (forall pre, pre `prefix_of` new_counts its -> pre <> new_counts its ->
               counter_after (default 0 (consec_no_new s)) pre < 3) /\
  (stop = OutOfFuel -> (fuel < Z.to_nat (max_try + 1 - current s))%nat).
Proof.
  revert s s' stop its.
  induction fuel as [|fuel IH]; intros s s' stop its Hrun Hk; simpl in Hrun.
  - case_decide as Hle; injection Hrun as <- <- <-; norm_nil;
      (repeat split; [by apply Forall_nil|done|done|intros _; lia| |]).
    + intros pre Hpre Hne. apply prefix_nil_inv in Hpre. done.
    + intros _. lia.
    + intros pre Hpre Hne. apply prefix_nil_inv in Hpre. done.
    + done.
  - case_decide as Hle.
    2:{ injection Hrun as <- <- <-. norm_nil.
        repeat split; [by apply Forall_nil|done|done|intros _; lia| |done].
        intros pre Hpre Hne. apply prefix_nil_inv in Hpre. done. }
    destruct (loop_body sect s) as [[o s1] it] eqn:Hbody.
    apply loop_body_inv in Hbody as (Hpage & Hsub & Hcase).
    destruct o as [reason|].
    + injection Hrun as <- <- <-.
      destruct Hcase as (Hcur & [(-> & Hadd & Hc)|(-> & n & Hadd & Hc & Hge)]).
      * rewrite (new_counts_cons_none _ _ Hadd). norm_nil.
        repeat split; [apply Forall_singleton; lia|done|done|intros _; lia| |done].
        intros pre Hpre Hne. apply prefix_nil_inv in Hpre. done.
      * rewrite (new_counts_cons_some _ _ _ Hadd). norm_nil.
        repeat split; [apply Forall_singleton; lia|done| |done| |done].
        -- intros _. rewrite bump_consec_step. by norm_nil.
        -- intros pre Hpre Hne. destruct pre as [|x pre]; [norm_nil; lia|].
           pose proof (prefix_cons_inv_1 _ _ _ _ Hpre) as ->.
           apply prefix_cons_inv_2, prefix_nil_inv in Hpre. by subst pre.
    + destruct Hcase as (n & Hadd & Hcur & Hc & Hlt).
      destruct (while_loop sect fuel max_try s1) as [[stop1 s2] its1] eqn:Hrest.
      injection Hrun as <- <- <-.
      apply IH in Hrest as (Hreq & Hsub' & Hng & Hother & Hpre & Hfuel).
      2:{ rewrite Hc. simpl. split; [apply bump_consec_nonneg; lia|done]. }
      rewrite Hc in Hng, Hother, Hpre. simpl in Hng, Hother, Hpre.
      rewrite (new_counts_cons_some _ _ _ Hadd).
      repeat split.
      * apply Forall_cons. split; [lia|].
        eapply Forall_impl; [exact Hreq|]. simpl. intros it' Hit'. lia.
      * by etrans.
      * by rewrite bump_consec_step.
      * by rewrite bump_consec_step.
      * intros pre Hp Hne. destruct pre as [|x pre]; [norm_nil; lia|].
        pose proof (prefix_cons_inv_1 _ _ _ _ Hp) as ->.
        apply prefix_cons_inv_2 in Hp. rewrite bump_consec_step.
        apply Hpre; [done|]. intros ->. done.
      * intros Hs. specialize (Hfuel Hs). lia.
Qed.

Lemma while_loop_keeps (fuel : nat) (max_try : Z) (s : LoopState) :
  all_items s ⊆ all_items (while_loop sect fuel max_try s).1.2.
Proof.
  revert s. induction fuel as [|fuel IH]; intros s; simpl.
  - by case_decide.
  - case_decide; [|done].
    destruct (loop_body sect s) as [[o s1] it] eqn:Hbody.
    apply loop_body_inv in Hbody as (_ & Hsub & _).
    destruct o as [reason|]; simpl; [done|].
    specialize (IH s1).
    destruct (while_loop sect fuel max_try s1) as [[stop s2] its]. simpl in *.
    by etrans.
Qed.

(** ** The run of [main] *)

Lemma main_inv (max_pages : Z) (d0 : Driver) (stop : Stop) (s' : LoopState)
    (its : list Iteration) :
  main sect max_pages d0 = (stop, s', its) ->
  Forall (fun it => 2 <= page it <= ceiling (read_total_pages d0) max_pages) its /\
  seed_items sect ∅ (extract_items_from_html (page_source d0)) ⊆ all_items s' /\
  (stop = NoGrowth <-> [0; 0; 0] `suffix_of` new_counts its) /\
  (forall pre, pre `prefix_of` new_counts its -> pre <> new_counts its ->
               ~ [0; 0; 0] `suffix_of` pre) /\
  stop <> OutOfFuel.
Proof.
  unfold main. intros Hrun.
  apply while_loop_inv in Hrun as (Hreq & Hsub & Hng & Hother & Hpre & Hfuel);
    [|simpl; lia].
  simpl in *. repeat split; try done.
  - intros Hs. by apply (counter_after_zeros 3), Hng.
  - intros Hs. apply (counter_after_zeros 3) in Hs.
    destruct (decide (stop = NoGrowth)) as [|Hne]; [done|].
    specialize (Hother Hne). simpl in Hs. lia.
  - intros pre Hp Hne Hs. apply (counter_after_zeros 3) in Hs.
    specialize (Hpre pre Hp Hne). simpl in Hs. lia.
  - intros Hs. specialize (Hfuel Hs). lia.
Qed.

(** The fuel given to the loop by [main] is enough: the run always ends for
    one of the three reasons the program has. *)
Lemma main_never_out_of_fuel (max_pages : Z) (d0 : Driver) :
  (main sect max_pages d0).1.1 <> OutOfFuel.
Proof.
  destruct (main sect max_pages d0) as [[stop s'] its] eqn:Hrun.
  by apply main_inv in Hrun as (_ & _ & _ & _ & Hfuel).
Qed.


(** C3: every page number that [main] hands to [click_page_and_collect]
    lies between 2 and the ceiling; the ceiling is the page-count hint when
    that is a number greater than 1 and the [--max-pages] cap otherwise; with
    a hint of 5, page 6 is not requested. *)
Theorem never_requests_beyond_ceiling (max_pages : Z) (d0 : Driver) :
  let '(_, _, its) := main sect max_pages d0 in
  Forall (fun p => 2 <= p <= ceiling (read_total_pages d0) max_pages) (requested its) /\
  (forall hint cap, 1 < hint -> ceiling (Some hint) cap = hint) /\
  (forall hint cap, hint <= 1 -> ceiling (Some hint) cap = cap) /\
  (forall cap, ceiling None cap = cap) /\
  (read_total_pages d0 = Some 5 -> 6 ∉ requested its).
Proof.
  destruct (main sect max_pages d0) as [[stop s'] its] eqn:Hrun.
  apply main_inv in Hrun as (Hreq & _).
  assert (Forall (fun p => 2 <= p <= ceiling (read_total_pages d0) max_pages)
                 (requested its)) as Hall.
  { unfold requested. by apply Forall_fmap. }
  split; [done|].
  split; [intros hint cap Hh; unfold ceiling; case_decide; [done|lia]|].
  split; [intros hint cap Hh; unfold ceiling; case_decide; [lia|done]|].
  split; [done|].
  intros Hhint Hin. rewrite Hhint in Hall.
  rewrite Forall_forall in Hall. apply Hall in Hin. simpl in Hin. lia.
Qed.

(** C9: merging the items extracted from a page twice gives the
    accumulator that merging them once gives: same map, so same size and
    same keys, and the second merge counts no new record. *)
Theorem merge_is_idempotent (html : Html) (acc : gmap string ItemRecord) :
  let items := extract_items_from_html html in
  let once := (merge_items sect acc items).1 in
  let twice := (merge_items sect once items).1 in
  twice = once /\ size twice = size once /\ dom twice = dom once /\
  (merge_items sect once items).2 = 0.
Proof.
  intros items once twice. subst twice once.
  rewrite merge_items_twice. done.
Qed.

(** The merge of lines 200-204 and the loop built on it: a record that is
    in the accumulator stays there unchanged; a merge keeps it, also when the
    page brings its URL with another title, and so does every later
    iteration of the loop.  The seeding of the first page, lines 151-152, is
    not a merge and is not covered. *)
Theorem later_merges_keep_the_stored_record (acc : gmap string ItemRecord) (u : string)
    (r : ItemRecord) :
  acc !! u = Some r ->
  (forall items, (merge_items sect acc items).1 !! u = Some r) /\
  (forall t items, (merge_items sect acc ((t, u) :: items)).1 !! u = Some r) /\
  (forall fuel max_try s, all_items s = acc ->
      all_items (while_loop sect fuel max_try s).1.2 !! u = Some r) /\
  (forall items, size acc <= size (merge_items sect acc items).1)%nat.
Proof.
  intros Hu.
  assert (forall items, (merge_items sect acc items).1 !! u = Some r) as Hmerge.
  { intros items. by apply merge_fold_lookup. }
  split; [done|]. split; [intros; apply Hmerge|]. split.
  - intros fuel max_try s Hs. eapply lookup_weaken; [|apply while_loop_keeps].
    by rewrite Hs.
  - intros items. apply map_subseteq_size, merge_items_subseteq.
Qed.

End Loop.


(** ** The scenarios of the specification *)

(** Pages 2 to 4 add nothing and the cap is 50: the run stops after page 4. *)
Example stale_site_stops_after_page_4 :
  let '(stop, s', its) :=
    main (Browser0 := Scenarios.stale_browser) "national" 50 1 in
  stop = NoGrowth /\ requested its = [2; 3; 4] /\ new_counts its = [0; 0; 0] /\
  size (all_items s') = 2%nat.
Proof. vm_compute. done. Qed.

(** The hint is 5 and every page brings a new record: the run stops at the
    ceiling, having requested pages 2 to 5. *)
Example growing_site_stops_at_hint :
  let '(stop, s', its) :=
    main (Browser0 := Scenarios.growing_browser) "local" 999 1 in
  stop = CeilingReached /\ requested its = [2; 3; 4; 5] /\
  new_counts its = [1; 1; 1; 1] /\ size (all_items s') = 5%nat.
Proof. vm_compute. done. Qed.


Lemma never_requests_beyond_ceiling_witness :
  6 ∉ requested (main (Browser0 := Scenarios.growing_browser) "local" 999 1).2.
Proof.
  pose proof (never_requests_beyond_ceiling
                (Browser0 := Scenarios.growing_browser) "local" 999 1) as Hthm.
  destruct (main (Browser0 := Scenarios.growing_browser) "local" 999 1)
    as [[stop s'] its].
  simpl. apply Hthm. reflexivity.
Defined.

Lemma merge_is_idempotent_witness :
  let once := (merge_items "national" ∅
                 (extract_items_from_html Scenarios.stale_site_page)).1 in
  (merge_items "national" once (extract_items_from_html Scenarios.stale_site_page)).1
  = once /\ size once = 2%nat.
Proof.
  split; [|vm_compute; reflexivity].
  apply (merge_is_idempotent "national" Scenarios.stale_site_page ∅).
Defined.

Lemma later_merges_keep_the_stored_record_witness :
  let first := {| section := "national"; title := "first title";
                  detail_url := "https://htsfwb.samr.gov.cn/View?id=7" |} in
  let acc : gmap string ItemRecord := {[ detail_url first := first ]} in
  acc !! detail_url first = Some first /\
  (merge_items "national" acc [("second title", detail_url first)]).1
    !! detail_url first = Some first.
Proof.
  intros first acc.
  assert (acc !! detail_url first = Some first) as Hu by (vm_compute; reflexivity).
  split; [exact Hu|].
  exact (proj1 (proj2 (later_merges_keep_the_stored_record
                         (Browser0 := Scenarios.stale_browser)
                         "national" acc (detail_url first) first Hu))
               "second title" []).
Defined.

End CollectFacts.

(** * Properties of the string and path primitives *)

Module PyFacts.
Import Py.

Lemma str_app_cons (c : ascii) (a b : string) : String c a +:+ b = String c (a +:+ b).
Proof. reflexivity. Qed.

Lemma str_app_length (a b : string) :
  String.length (a +:+ b) = (String.length a + String.length b)%nat.
Proof. induction a as [|c a IH]; [done|]. rewrite str_app_cons. simpl. by rewrite IH. Qed.

Lemma str_app_nil_r (a : string) : a +:+ "" = a.
Proof. induction a as [|c a IH]; [done|]. by rewrite str_app_cons, IH. Qed.

Lemma str_app_assoc (a b c : string) : (a +:+ b) +:+ c = a +:+ (b +:+ c).
Proof. induction a as [|x a IH]; [done|]. by rewrite !str_app_cons, IH. Qed.

Lemma str_app_ne_self (a b : string) : b <> "" -> a +:+ b <> a.
Proof.
  intros Hb Heq. apply (f_equal String.length) in Heq.
  rewrite str_app_length in Heq. destruct b; [done|]. simpl in Heq. lia.
Qed.

(** Whether a string starts with ['/'] depends on its first character only. *)
Lemma prefix_slash_cons (c : ascii) (s s' : string) :
  prefix_of "/" (String c s) = prefix_of "/" (String c s').
Proof. simpl. by case_decide. Qed.

Lemma os_path_join_longer (a b1 b2 : string) :
  prefix_of "/" b1 = prefix_of "/" b2 ->
  (String.length b1 < String.length b2)%nat ->
  (String.length (os_path_join a b1) < String.length (os_path_join a b2))%nat.
Proof.
  intros Hhead Hlen. unfold os_path_join. rewrite Hhead.
  destruct (prefix_of "/" b2); [done|].
  case_decide; [done|].
  destruct (prefix_of "/" (String.rev a)); rewrite !str_app_length; simpl; lia.
Qed.

Lemma split_last_dot_app (s root ext : string) :
  split_last_dot s = Some (root, ext) -> root +:+ ext = s.
Proof.
  revert root ext. induction s as [|c s IH]; intros root ext; simpl; [done|].
  destruct (split_last_dot s) as [[r e]|].
  - intros [= <- <-]. rewrite str_app_cons. f_equal. by apply IH.
  - case_decide; [|done]. by intros [= <- <-].
Qed.

Lemma os_path_splitext_app (p : string) :
  (os_path_splitext p).1 +:+ (os_path_splitext p).2 = p.
Proof.
  unfold os_path_splitext.
  destruct (split_last_dot p) as [[root ext]|] eqn:Hs; simpl.
  - destruct (negb _ && negb _); simpl; [by apply split_last_dot_app|apply str_app_nil_r].
  - apply str_app_nil_r.
Qed.

Lemma os_path_splitext_root (p : string) :
  p <> "" -> (os_path_splitext p).1 <> "".
Proof.
  intros Hp. unfold os_path_splitext.
  destruct (split_last_dot p) as [[root ext]|] eqn:Hs; simpl; [|done].
  destruct (negb (contains "/" ext)) eqn:Hc; simpl; [|done].
  destruct (all_dots (basename root)) eqn:Hd; simpl; [done|].
  intros ->. done.
Qed.

(** The name with the resource id put before the extension is longer than
    the name itself, and so is its path in the same directory. *)
Lemma suffixed_path_longer (dir filename uid : string) :
  let '(base, e) := os_path_splitext filename in
  (String.length (os_path_join dir filename) <
   String.length (os_path_join dir (base +:+ "_" +:+ uid +:+ e)))%nat.
Proof.
  pose proof (os_path_splitext_app filename) as Happ.
  pose proof (os_path_splitext_root filename) as Hroot.
  destruct (os_path_splitext filename) as [base e]. simpl in *.
  apply os_path_join_longer.
  - destruct base as [|c base].
    + destruct filename as [|c' f']; [reflexivity|by destruct Hroot].
    + rewrite <- Happ, !str_app_cons. apply prefix_slash_cons.
  - rewrite <- Happ, !str_app_length. simpl. lia.
Qed.

End PyFacts.

(** * Properties of the download routine *)

Module DownloadFacts.
Import Py PyFacts Download Notions.

(** ** The file system *)

Lemma write_chunks_fold (path : string) (cs : list (list byte))
    (g : gmap string (list byte)) (data : list byte) :
  g !! path = Some data ->
  foldl (fun g chunk => match chunk with [] => g | _ => append_file path chunk g end) g cs
    !! path = Some (data ++ concat cs).
Proof.
  revert g data. induction cs as [|c cs IH]; intros g data Hg; simpl.
  - by rewrite app_nil_r.
  - destruct c as [|b c].
    + by apply IH.
    + rewrite (IH _ (data ++ b :: c)).
      * by rewrite <- app_assoc.
      * unfold append_file. rewrite lookup_insert_eq, Hg. done.
Qed.

Lemma write_chunks_lookup (path : string) (cs : list (list byte))
    (f : gmap string (list byte)) :
  write_chunks path cs f !! path = Some (concat cs).
Proof.
  unfold write_chunks. rewrite (write_chunks_fold _ _ _ []); [done|].
  unfold write_file. apply lookup_insert_eq.
Qed.

Lemma write_chunks_lookup_ne (path p : string) (cs : list (list byte))
    (f : gmap string (list byte)) :
  p <> path -> write_chunks path cs f !! p = f !! p.
Proof.
  intros Hne. unfold write_chunks.
  assert (write_file path [] f !! p = f !! p) as <-.
  { unfold write_file. by rewrite lookup_insert_ne. }
  generalize (write_file path [] f). induction cs as [|c cs IH]; intros g; simpl; [done|].
  rewrite IH. destruct c; [done|]. unfold append_file. by rewrite lookup_insert_ne.
Qed.

Lemma write_chunks_keeps (path p : string) (cs : list (list byte))
    (f : gmap string (list byte)) :
  is_Some (f !! p) -> is_Some (write_chunks path cs f !! p).
Proof.
  intros Hp. destruct (decide (p = path)) as [->|Hne].
  - rewrite write_chunks_lookup. eauto.
  - by rewrite write_chunks_lookup_ne.
Qed.

Lemma part_ne (outpath : string) : outpath +:+ ".part" <> outpath.
Proof. by apply str_app_ne_self. Qed.

(** The complete save: write to the sibling, then rename. *)
Lemma save_lookup (outpath : string) (cs : list (list byte))
    (f : gmap string (list byte)) :
  let f' := os_replace (outpath +:+ ".part") outpath
              (write_chunks (outpath +:+ ".part") cs f) in
  f' !! outpath = Some (concat cs) /\
  f' !! (outpath +:+ ".part") = None /\
  (forall p, p <> outpath -> p <> outpath +:+ ".part" -> f' !! p = f !! p).
Proof.
  unfold os_replace. rewrite write_chunks_lookup. simpl.
  pose proof (part_ne outpath) as Hne.
  split; [apply lookup_insert_eq|]. split.
  - rewrite lookup_insert_ne by done. apply lookup_delete_eq.
  - intros p Hp1 Hp2. rewrite lookup_insert_ne, lookup_delete_ne by done.
    by apply write_chunks_lookup_ne.
Qed.

Section WithLib.
Context `{!PyLib}.
Variable session : Session.

(** ** One attempt *)

Lemma attempt_once_failed (j : Job) (typ a : Z) (w w' : World) (msg : string) :
  attempt_once session j typ a w = (w', inl msg) ->
  requests w' = requests w ++ [request_of j typ] /\
  sleeps w' = sleeps w ++ [sleep_delay a] /\
  (forall p, is_Some (fs w !! p) -> is_Some (fs w' !! p)).
Proof.
  unfold attempt_once.
  destruct (get session (requests w) (request_of j typ)) as [e|r].
  { intros [= <- <-]. simpl. done. }
  case_decide as Hst.
  { destruct (read_content r) as [e|text]; intros [= <- <-]; simpl;
      (split; [done|split; [done|]]); [done|].
    intros p Hp. unfold write_file.
    destruct (decide (p = os_path_join (os_path_join (job_outdir j) "debug_html")
                 (job_uid j +:+ "_" +:+ pretty typ +:+ "_status"
                  +:+ pretty (status_code r) +:+ ".html"))) as [->|Hne].
    - rewrite lookup_insert_eq. eauto.
    - by rewrite lookup_insert_ne. }
  destruct (choose_ext r _) as [e|[ext|]].
  - intros [= <- <-]. simpl. done.
  - destruct (stream_error r) as [e|]; [|done].
    intros [= <- <-]. simpl. split; [done|]. split; [done|].
    intros p Hp. by apply write_chunks_keeps.
  - destruct (read_content r) as [e|body]; intros [= <- <-]; simpl;
      (split; [done|split; [done|]]); [done|].
    intros p Hp. unfold write_file.
    destruct (decide (p = os_path_join (os_path_join (job_outdir j) "debug_html")
                 (job_uid j +:+ "_" +:+ pretty typ +:+ "_notbinary.html"))) as [->|Hne].
    + rewrite lookup_insert_eq. eauto.
    + by rewrite lookup_insert_ne.
Qed.

Lemma attempt_once_saved (j : Job) (typ a : Z) (w w' : World) (outpath : string) :
  attempt_once session j typ a w = (w', inr outpath) ->
  requests w' = requests w ++ [request_of j typ] /\
  sleeps w' = sleeps w /\
  exists r ext,
    get session (requests w) (request_of j typ) = Replied r /\
    status_code r = 200 /\
    choose_ext r (lower (default "" (content_type r))) = inr (Some ext) /\
    stream_error r = None /\
    outpath = choose_outpath (fs w) (job_outdir j) (job_section j) (job_title j)
                (job_uid j) ext /\
    fs w' = os_replace (outpath +:+ ".part") outpath
              (write_chunks (outpath +:+ ".part") (chunks r) (fs w)).
Proof.
  unfold attempt_once.
  destruct (get session (requests w) (request_of j typ)) as [e|r]; [done|].
  case_decide as Hst.
  { by destruct (read_content r). }
  destruct (choose_ext r _) as [e|[ext|]] eqn:Hext; [done| |by destruct (read_content r)].
  destruct (stream_error r) as [e|] eqn:Herr; [done|].
  intros [= <- <-]. simpl. split; [done|]. split; [done|].
  exists r, ext. repeat split; try done.
Qed.

(** ** The attempts for one type *)

Lemma attempt_loop_log (j : Job) (typ : Z) (n : nat) (a : Z) (le : option string)
    (w w' : World) (got le' : option string) :
  attempt_loop session j typ n a le w = (w', got, le') ->
  exists failed : nat,
    (failed + (if got is Some _ then 1 else 0) <= n)%nat /\
    requests w' = requests w
                  ++ replicate (failed + (if got is Some _ then 1 else 0)) (request_of j typ) /\
    sleeps w' = sleeps w ++ map sleep_delay (seqZ a (Z.of_nat failed)) /\
    (got = None -> failed = n /\
                   (forall p, is_Some (fs w !! p) -> is_Some (fs w' !! p)) /\
                   (n = O -> le' = le) /\ (n <> O -> is_Some le')) /\
    (forall p, got = Some p -> is_Some (fs w' !! p)).
Proof.
  revert a le w. induction n as [|n IH]; intros a le w; simpl.
  - intros [= <- <- <-]. exists O. simpl. rewrite !app_nil_r.
    repeat split; try done.
  - destruct (attempt_once session j typ a w) as [w1 [msg|outpath]] eqn:Hone.
    + apply attempt_once_failed in Hone as (Hreq & Hsl & Hfs).
      intros Hrest. apply IH in Hrest as (failed & Hle & Hreq' & Hsl' & Hnone & Hsome).
      exists (S failed). split; [lia|]. split; [|split; [|split]].
      * rewrite Hreq', Hreq. simpl. by rewrite <- app_assoc.
      * rewrite Hsl', Hsl, <- app_assoc. f_equal.
        rewrite (seqZ_cons a) by lia. simpl. do 3 f_equal; lia.
      * intros Hg. destruct (Hnone Hg) as (-> & Hkeep & Hz & Hnz).
        split; [done|]. split; [by intros p Hp; apply Hkeep, Hfs|].
        split; [done|]. intros _. destruct n; [rewrite Hz; eauto|by apply Hnz].
      * done.
    + apply attempt_once_saved in Hone
        as (Hreq & Hsl & r & ext & _ & _ & _ & _ & _ & Hfs).
      intros [= <- <- <-]. exists O. simpl. split; [lia|].
      rewrite app_nil_r. repeat split; try done.
      intros p [= <-]. rewrite Hfs. rewrite (proj1 (save_lookup _ _ _)). eauto.
Qed.





(** ** The whole record *)

Lemma truthy_false (o : option string) : truthy o = false -> o = None \/ o = Some "".
Proof. destruct o as [[|c s]|]; simpl; auto. done. Qed.

(** C4: a record without a detail URL, under any of the three column
    names, gives [(False, "no_detail_url")]; a record whose URL yields no id,
    neither from its query string nor after the text [id=], gives
    [(False, "no_id")]; in both cases the world is unchanged: no request is
    sent and nothing is slept or written. *)
Theorem fails_fast_without_request (entry : gmap string string) (outdir : string)
    (types : list string) (retries : Z) (w : World) :
  (truthy (entry !! "detail_url") = false ->
   truthy (entry !! "file_url") = false ->
   truthy (entry !! "detail") = false ->
   download_one session entry outdir types retries w = (w, (false, Msg "no_detail_url"))) /\
  (forall url,
     entry_detail_url entry = Some url -> url <> "" ->
     truthy (query_id url) = false ->
     (contains "id=" url = true -> split_first "&" (split_last "id=" url) = "") ->
     download_one session entry outdir types retries w = (w, (false, Msg "no_id"))).
Proof.
  split.
  - intros H1 H2 H3. unfold download_one, entry_detail_url, or_else.
    rewrite H1. cbn iota. rewrite H2. cbn iota.
    apply truthy_false in H3 as [->| ->]; done.
  - intros url Hurl Hne Hq Hsub. unfold download_one. rewrite Hurl.
    destruct url as [|c u]; [done|].
    unfold extract_uid. rewrite Hq.
    destruct (contains "id=" (String c u)).
    + by rewrite Hsub.
    + apply truthy_false in Hq as [->| ->]; done.
Qed.

Lemma types_loop_app (j : Job) (retries : Z) (pre rest saved : list string) (w : World) :
  types_loop session j retries (pre ++ rest) saved w =
  match types_loop session j retries pre saved w with
  | (w', (true, Saved saved')) => types_loop session j retries rest saved' w'
  | other => other
  end.
Proof.
  revert saved w. induction pre as [|t pre IH]; intros saved w; simpl; [done|].
  destruct (try_type session j retries t w) as [[w' [outpath|]] le]; [apply IH|done].
Qed.

Lemma types_loop_last_saved (j : Job) (retries : Z) (pre saved saved' : list string)
    (w w' : World) :
  types_loop session j retries pre saved w = (w', (true, Saved saved')) ->
  (forall p, last saved = Some p -> is_Some (fs w !! p)) ->
  forall p, last saved' = Some p -> is_Some (fs w' !! p).
Proof.
  revert saved w. induction pre as [|t pre IH]; intros saved w; simpl.
  - by intros [= <- <-].
  - destruct (try_type session j retries t w) as [[w1 [outpath|]] le] eqn:Htry; [|done].
    intros Hrest _. eapply IH; [exact Hrest|].
    intros p. rewrite last_snoc. intros [= <-].
    unfold try_type in Htry.
    apply attempt_loop_log in Htry as (_ & _ & _ & _ & _ & Hsome). by apply Hsome.
Qed.

(** C1, as the program has it: when the attempts for a type [t] are
    exhausted, [download_one] returns at once with
    [(False, "fail_<t>:<last_err>")]; the types listed after [t] are not
    processed, whatever they are; the attempts for [t] delete nothing, so
    every file on disk when they began, the one saved for the type before [t]
    among them, is still on disk. *)
Theorem failed_type_ends_the_record (j : Job) (retries : Z)
    (pre post : list string) (t : string) (saved0 : list string)
    (w w0 w1 : World) (last_err : option string) :
  types_loop session j retries pre [] w = (w0, (true, Saved saved0)) ->
  try_type session j retries t w0 = (w1, None, last_err) ->
  types_loop session j retries (pre ++ t :: post) [] w
    = (w1, (false, Msg ("fail_" +:+ t +:+ ":" +:+ str_of last_err))) /\
  requests w1 = requests w0
                ++ replicate (Z.to_nat (retries + 1)) (request_of j (type_code t)) /\
  (forall p, is_Some (fs w0 !! p) -> is_Some (fs w1 !! p)) /\
  (forall p, last saved0 = Some p -> is_Some (fs w1 !! p)) /\
  (0 <= retries -> is_Some last_err).
Proof.
  intros Hpre Htry. split.
  { rewrite types_loop_app, Hpre. simpl. by rewrite Htry. }
  pose proof Htry as Hlog. unfold try_type in Hlog.
  apply attempt_loop_log in Hlog as (failed & _ & Hreq & _ & Hnone & _).
  destruct (Hnone eq_refl) as (-> & Hkeep & _ & Hnz).
  split; [by rewrite Hreq, Nat.add_0_r|]. split; [done|]. split.
  - intros p Hp. apply Hkeep. eapply types_loop_last_saved; [exact Hpre| |exact Hp].
    by intros p'.
  - intros Hret. apply Hnz. lia.
Qed.

(** ** The output path and the save *)

Lemma choose_outpath_spec (f : gmap string (list byte)) (outdir sect title uid ext : string) :
  let dir := os_path_join outdir sect in
  let filename := safe_filename title +:+ ext in
  let plain := os_path_join dir filename in
  let suffixed := os_path_join dir ((os_path_splitext filename).1 +:+ "_" +:+ uid
                                    +:+ (os_path_splitext filename).2) in
  choose_outpath f outdir sect title uid ext
    = (if f !! plain is Some _ then suffixed else plain) /\
  (String.length plain < String.length suffixed)%nat.
Proof.
  intros dir filename plain suffixed. subst plain suffixed. unfold choose_outpath.
  fold dir. fold filename.
  pose proof (suffixed_path_longer dir filename uid) as Hlen.
  destruct (os_path_splitext filename) as [base e]. simpl.
  split; [|done]. by destruct (f !! os_path_join dir filename).
Qed.

(** C7, as the program has it: an accepted payload goes to the path built
    from the sanitized title and the extension when no file is there, and
    otherwise to the path with [_<uid>] put before the extension, which is a
    different path; the save leaves every other file as it was, so the file
    that held the plain name is kept and two files exist; no file is
    overwritten provided the plain path or the path with the id is free. *)
Theorem save_disambiguates_by_resource_id (j : Job) (typ a : Z) (w w' : World)
    (outpath : string) :
  attempt_once session j typ a w = (w', inr outpath) ->
  exists r ext,
    let dir := os_path_join (job_outdir j) (job_section j) in
    let filename := safe_filename (job_title j) +:+ ext in
    let plain := os_path_join dir filename in
    let suffixed := os_path_join dir ((os_path_splitext filename).1 +:+ "_" +:+ job_uid j
                                      +:+ (os_path_splitext filename).2) in
    get session (requests w) (request_of j typ) = Replied r /\
    choose_ext r (lower (default "" (content_type r))) = inr (Some ext) /\
    outpath = (if fs w !! plain is Some _ then suffixed else plain) /\
    suffixed <> plain /\
    fs w' !! outpath = Some (concat (chunks r)) /\
    (fs w !! plain = None \/ fs w !! suffixed = None -> fs w !! outpath = None) /\
    (forall p, p <> outpath -> p <> outpath +:+ ".part" -> fs w' !! p = fs w !! p) /\
    (is_Some (fs w !! plain) -> fs w' !! plain = fs w !! plain).
Proof.
  intros Hrun.
  apply attempt_once_saved in Hrun
    as (_ & _ & r & ext & Hget & _ & Hext & _ & Hout & Hfs).
  exists r, ext. intros dir filename plain suffixed.
  destruct (choose_outpath_spec (fs w) (job_outdir j) (job_section j) (job_title j)
              (job_uid j) ext) as [Hspec Hlen].
  fold dir filename plain suffixed in Hspec, Hlen.
  rewrite Hspec in Hout.
  destruct (save_lookup outpath (chunks r) (fs w)) as (Hnew & _ & Hother).
  rewrite <- Hfs in Hnew, Hother.
  assert (suffixed <> plain) as Hne by (intros Heq; rewrite Heq in Hlen; lia).
  repeat split; try done.
  - intros [Hfree|Hfree]; rewrite Hout.
    + by rewrite Hfree.
    + by destruct (fs w !! plain) eqn:Hp.
  - intros [data Hp]. apply Hother; rewrite Hout, Hp.
    + done.
    + intros Heq. apply (f_equal String.length) in Heq.
      rewrite str_app_length in Heq. lia.
Qed.

(** ** Recognition by signature *)

Lemma bytes_startswith_firstn (p b : list byte) (n : nat) :
  bytes_startswith p b = true -> (length p <= n)%nat ->
  bytes_startswith p (firstn n b) = true.
Proof.
  revert b n. induction p as [|x p IH]; intros b n; [done|].
  destruct b as [|y b]; [done|]. destruct n as [|n]; simpl; [lia|].
  destruct (Byte.eqb x y); [|done]. intros Hp Hn. apply IH; [done|lia].
Qed.

(** Lines 110-120 for a response with status 200, no content type that
    names a format and no file name in the disposition, whose body starts
    with [%PDF]: the extension is [.pdf] if [r.raw.seek(0)] returns, and the
    attempt raises if it does not. *)
Lemma choose_ext_by_signature (r : Response) (ctype : string) :
  contains "pdf" ctype = false ->
  contains WORDML ctype = false ->
  contains "word" ctype = false ->
  contains "msword" ctype = false ->
  contains "filename=" (default "" (content_disposition r)) = false ->
  bytes_startswith PDF_MAGIC (concat (chunks r)) = true ->
  stream_error r = None ->
  choose_ext r ctype = match raw_seek_error r with
                       | Some msg => inl msg
                       | None => inr (Some ".pdf")
                       end.
Proof.
  intros Hpdf Hwml Hword Hms Hcd Hmagic Herr. unfold choose_ext.
  rewrite Hpdf, Hwml, Hword, Hms, Hcd. cbn [orb].
  assert (raw_read8 r = inr (firstn 8 (concat (chunks r)))) as ->.
  { unfold raw_read8. rewrite Herr. case_decide as Hlen; [done|].
    by rewrite firstn_all2 by lia. }
  rewrite bytes_startswith_firstn; [done|done|cbn; lia].
Qed.

Lemma signature_accepted_when_rewindable (j : Job) (typ a : Z) (w : World) (r : Response) :
  get session (requests w) (request_of j typ) = Replied r ->
  status_code r = 200 ->
  contains "pdf" (lower (default "" (content_type r))) = false ->
  contains WORDML (lower (default "" (content_type r))) = false ->
  contains "word" (lower (default "" (content_type r))) = false ->
  contains "msword" (lower (default "" (content_type r))) = false ->
  contains "filename=" (default "" (content_disposition r)) = false ->
  bytes_startswith PDF_MAGIC (concat (chunks r)) = true ->
  stream_error r = None ->
  raw_seek_error r = None ->
  let outpath := choose_outpath (fs w) (job_outdir j) (job_section j) (job_title j)
                   (job_uid j) ".pdf" in
  (attempt_once session j typ a w).2 = inr outpath /\
  fs (attempt_once session j typ a w).1 !! outpath = Some (concat (chunks r)).
Proof.
  intros Hget Hst Hpdf Hwml Hword Hms Hcd Hmagic Herr Hseek outpath.
  pose proof (choose_ext_by_signature r _ Hpdf Hwml Hword Hms Hcd Hmagic Herr) as Hext.
  rewrite Hseek in Hext.
  unfold attempt_once. rewrite Hget. case_decide as Hne; [done|].
  rewrite Hext, Herr. fold outpath. simpl. split; [done|].
  apply save_lookup.
Qed.

Lemma signature_lost_when_seek_raises (j : Job) (typ a : Z) (w : World) (r : Response)
    (msg : string) :
  get session (requests w) (request_of j typ) = Replied r ->
  status_code r = 200 ->
  contains "pdf" (lower (default "" (content_type r))) = false ->
  contains WORDML (lower (default "" (content_type r))) = false ->
  contains "word" (lower (default "" (content_type r))) = false ->
  contains "msword" (lower (default "" (content_type r))) = false ->
  contains "filename=" (default "" (content_disposition r)) = false ->
  bytes_startswith PDF_MAGIC (concat (chunks r)) = true ->
  stream_error r = None ->
  raw_seek_error r = Some msg ->
  (attempt_once session j typ a w).2 = inl msg /\
  fs (attempt_once session j typ a w).1 = fs w.
Proof.
  intros Hget Hst Hpdf Hwml Hword Hms Hcd Hmagic Herr Hseek.
  pose proof (choose_ext_by_signature r _ Hpdf Hwml Hword Hms Hcd Hmagic Herr) as Hext.
  rewrite Hseek in Hext.
  unfold attempt_once. rewrite Hget. case_decide as Hne; [done|].
  by rewrite Hext.
Qed.

End WithLib.


(** ** The scenarios *)

Import Scenarios.

Lemma fails_fast_without_request_witness :
  download_one pdf_session ∅ "out" ["pdf"] 2 empty_world
    = (empty_world, (false, Msg "no_detail_url")) /\
  download_one pdf_session about_entry "out" ["pdf"] 2 empty_world
    = (empty_world, (false, Msg "no_id")).
Proof.
  split.
  - apply (proj1 (fails_fast_without_request pdf_session ∅ "out" ["pdf"] 2 empty_world));
      reflexivity.
  - apply (proj2 (fails_fast_without_request pdf_session about_entry "out" ["pdf"] 2
                    empty_world) "https://htsfwb.samr.gov.cn/About").
    + vm_compute. reflexivity.
    + discriminate.
    + vm_compute. reflexivity.
    + vm_compute. discriminate.
Defined.


(** With every request refused, the attempts for [pdf] are all that is
    sent: the type listed after it is not attempted. *)
Lemma later_type_is_not_attempted :
  ~ continues_after_failure forbidden_session lease_job 2 "pdf" "word" empty_world.
Proof.
  unfold continues_after_failure. intros Hcont.
  assert ((try_type forbidden_session lease_job 2 "pdf" empty_world).1.2 = None) as Hfail
    by (vm_compute; reflexivity).
  specialize (Hcont Hfail). vm_compute in Hcont. lia.
Qed.

Lemma failed_type_ends_the_record_witness :
  exists w0 w1,
    types_loop pdf_only_session lease_job 2 ["pdf"] [] empty_world
      = (w0, (true, Saved ["out/national/Lease contract.pdf"])) /\
    try_type pdf_only_session lease_job 2 "word" w0 = (w1, None, Some "status 403") /\
    types_loop pdf_only_session lease_job 2 ["pdf"; "word"; "pdf"] [] empty_world
      = (w1, (false, Msg "fail_word:status 403")) /\
    is_Some (fs w1 !! "out/national/Lease contract.pdf").
Proof.
  eexists. eexists.
  split; [vm_compute; reflexivity|]. split; [vm_compute; reflexivity|].
  match goal with
  | |- types_loop _ _ _ _ _ _ = (?w1, _) /\ _ =>
      match type of w1 with
      | _ =>
          destruct (failed_type_ends_the_record pdf_only_session lease_job 2
                      ["pdf"] ["pdf"] "word" ["out/national/Lease contract.pdf"]
                      empty_world
                      (types_loop pdf_only_session lease_job 2 ["pdf"] [] empty_world).1
                      w1 (Some "status 403"))
            as (Hres & _ & _ & Hlast & _)
      end
  end.
  { vm_compute. reflexivity. }
  { vm_compute. reflexivity. }
  split; [exact Hres|]. apply Hlast. reflexivity.
Defined.

(** On a disk where the plain name and the name with the id are both taken,
    the payload is saved over the second of them. *)
Lemma second_collision_overwrites :
  ~ save_never_overwrites pdf_session lease_job 2 0 crowded_world.
Proof.
  unfold save_never_overwrites. intros Hnever.
  assert (attempt_once pdf_session lease_job 2 0 crowded_world
          = ((attempt_once pdf_session lease_job 2 0 crowded_world).1,
             inr "out/national/Lease contract_42.pdf")) as Hrun
    by (vm_compute; reflexivity).
  pose proof (Hnever _ _ Hrun) as Hnone.
  vm_compute in Hnone. discriminate.
Qed.

Lemma save_disambiguates_by_resource_id_witness :
  exists w',
    attempt_once pdf_session lease_job 2 0 taken_world
      = (w', inr "out/national/Lease contract_42.pdf") /\
    fs w' !! "out/national/Lease contract_42.pdf" = Some (pdf_head ++ [x00]) /\
    fs w' !! "out/national/Lease contract.pdf" = Some [x01].
Proof.
  eexists. split; [vm_compute; reflexivity|].
  match goal with
  | |- fs ?w' !! _ = _ /\ _ =>
      destruct (save_disambiguates_by_resource_id pdf_session lease_job 2 0 taken_world
                  w' "out/national/Lease contract_42.pdf")
        as (r & ext & Hget & Hext & _ & _ & Hnew & _ & _ & Hkept)
  end.
  { vm_compute. reflexivity. }
  injection Hget as <-. injection Hext as <-.
  split; [exact Hnew|].
  refine (eq_trans (Hkept _) _); vm_compute; eauto.
Defined.

(** C5: a response with status 200, without content type and disposition,
    whose body starts with [%PDF], read from a stream that cannot seek: every
    attempt raises at [r.raw.seek(0)], nothing is saved, and the record fails
    with [fail_pdf:seek] after the three tries. *)
Theorem bare_pdf_over_a_stream_is_not_saved :
  let '(w', res) := download_one bare_pdf_session lease_entry "out" ["pdf"] 2 empty_world in
  res = (false, Msg "fail_pdf:seek") /\ fs w' = ∅ /\ length (requests w') = 3%nat.
Proof. vm_compute. done. Qed.

(** The same response from a stream that can be rewound is saved whole. *)
Example bare_pdf_from_rewindable_stream_is_saved :
  let '(w', res) :=
    download_one rewindable_pdf_session lease_entry "out" ["pdf"] 2 empty_world in
  res = (true, Saved ["out/national/Lease contract.pdf"]) /\
  fs w' !! "out/national/Lease contract.pdf" = Some (pdf_head ++ pdf_tail).
Proof. vm_compute. done. Qed.

(** Three saves of the same record: the third goes over the second. *)
Example third_save_goes_over_the_second :
  let '(w', res) :=
    download_one pdf_session lease_entry "out" ["pdf"; "pdf"; "pdf"] 2 empty_world in
  res = (true, Saved ["out/national/Lease contract.pdf";
                      "out/national/Lease contract_42.pdf";
                      "out/national/Lease contract_42.pdf"]) /\
  fs w' !! "out/national/Lease contract.pdf" = Some (pdf_head ++ [x00]) /\
  fs w' !! "out/national/Lease contract_42.pdf" = Some (pdf_head ++ [x02]).
Proof. vm_compute. done. Qed.

End DownloadFacts.

(** * Further properties of the traversal controller *)

Module CollectMore.
Import Collect Notions CollectFacts.

Section Loop.
Context {Driver Elem Html : Type}.
Context `{!HtmlLib Html, !Browser Driver Elem Html}.
Variable sect : string.

(** ** Shape of a run *)

Lemma loop_body_size (s s1 : LoopState) (o : option Stop) (it : Iteration) :
  loop_body sect s = (o, s1, it) ->
  Z.of_nat (size (all_items s1)) =
    Z.of_nat (size (all_items s)) + default 0 (added it) /\
  (added it = None -> all_items s1 = all_items s).
Proof.
  unfold loop_body.
  destruct (fetch_items (driver s) (current s)) as [d [items|]].
  - pose proof (merge_fold_count sect items (all_items s, 0)) as Hcount.
    fold (merge_items sect (all_items s) items) in Hcount.
    destruct (merge_items sect (all_items s) items) as [acc m].
    simpl in Hcount.
    case_decide; intros [= <- <- <-]; simpl; (split; [lia|done]).
  - intros [= <- <- <-]. simpl. split; [lia|done].
Qed.

Lemma while_loop_shape (fuel : nat) (max_try : Z) (s s' : LoopState)
    (stop : Stop) (its : list Iteration) :
  while_loop sect fuel max_try s = (stop, s', its) ->
  requested its = seqZ (current s) (Z.of_nat (length its)) /\
  Z.of_nat (length its) <= Z.max 0 (max_try + 1 - current s) /\
  (stop = CeilingReached ->
   Z.of_nat (length its) = Z.max 0 (max_try + 1 - current s)) /\
  (forall i it, its !! i = Some it -> added it = None ->
                S i = length its /\ stop = NavigationAbort) /\
  (stop = NavigationAbort ->
   exists it, last its = Some it /\ added it = None /\ page it = current s') /\
  Z.of_nat (size (all_items s')) =
    Z.of_nat (size (all_items s)) + foldr Z.add 0 (new_counts its).
Proof.
  revert s s' stop its.
  induction fuel as [|fuel IH]; intros s s' stop its Hrun; simpl in Hrun.
  - case_decide as Hle; injection Hrun as <- <- <-; simpl;
      (repeat split; try done; try lia).
  - case_decide as Hle.
    2:{ injection Hrun as <- <- <-. simpl. repeat split; try done; lia. }
    destruct (loop_body sect s) as [[o s1] it] eqn:Hbody.
    pose proof (loop_body_size _ _ _ _ Hbody) as [Hsize _].
    apply loop_body_inv in Hbody as (Hpage & _ & Hcase).
    destruct o as [reason|].
    + injection Hrun as <- <- <-.
      assert (requested [it] = seqZ (current s) 1) as Hreq
        by (unfold requested; simpl; by rewrite Hpage).
      destruct Hcase as (Hcur & [(-> & Hadd & _)|(-> & n & Hadd & _)]).
      * rewrite (new_counts_cons_none _ _ Hadd), Hadd in *. simpl in *.
        repeat split; try done; try lia.
        -- destruct i; [done|]. by destruct i.
        -- intros _. exists it. rewrite Hcur. done.
      * rewrite (new_counts_cons_some _ _ _ Hadd), Hadd in *. simpl in *.
        repeat split; try done; try lia.
        -- destruct i as [|i]; simpl in *; [|by destruct i]. congruence.
        -- destruct i as [|i]; simpl in *; [|by destruct i]. congruence.
    + destruct Hcase as (n & Hadd & Hcur & _).
      destruct (while_loop sect fuel max_try s1) as [[stop1 s2] its1] eqn:Hrest.
      injection Hrun as <- <- <-.
      apply IH in Hrest as (Hreq & Hlen & Hceil & Hnone & Habort & Hacc).
      rewrite (new_counts_cons_some _ _ _ Hadd), Hadd in *. simpl in Hsize.
      rewrite Hcur in *.
      split; [|split; [|split; [|split; [|split]]]].
      * unfold requested in *. simpl. rewrite Hpage, Hreq.
        rewrite (seqZ_cons (current s)) by lia. do 2 f_equal; lia.
      * simpl. lia.
      * intros Hs. specialize (Hceil Hs). simpl. lia.
      * intros i it' Hi Hn. destruct i as [|i]; simpl in Hi.
        -- congruence.
        -- destruct (Hnone i it' Hi Hn) as [Hl Hs]. simpl. split; [by f_equal|done].
      * intros Hs. destruct (Habort Hs) as (it' & Hlast & Hn & Hp).
        exists it'. split; [|done]. destruct its1; [done|]. done.
      * simpl. lia.
Qed.

(** X1: the pages handed to [click_page_and_collect] during a run of [main]
    are 2, 3, 4, ... in this order, without gap and without repetition. *)
Theorem pages_are_requested_in_order (max_pages : Z) (d0 : Driver) :
  let '(_, _, its) := main sect max_pages d0 in
  requested its = seqZ 2 (Z.of_nat (length its)).
Proof.
  destruct (main sect max_pages d0) as [[stop s'] its] eqn:Hrun.
  unfold main in Hrun. by apply while_loop_shape in Hrun as (Hreq & _).
Qed.

(** X2: the loop of [main] runs at most [max_try - 1] times and always ends
    for one of its three reasons; when it ends because the ceiling is passed,
    every page from 2 to [max_try] has been requested, and none when
    [max_try] is below 2. *)
Theorem run_is_bounded_by_the_ceiling (max_pages : Z) (d0 : Driver) :
  let max_try := ceiling (read_total_pages d0) max_pages in
  let '(stop, _, its) := main sect max_pages d0 in
  Z.of_nat (length its) <= Z.max 0 (max_try - 1) /\
  stop <> OutOfFuel /\
  (stop = CeilingReached -> requested its = seqZ 2 (max_try - 1)) /\
  (max_try < 2 -> stop = CeilingReached /\ its = []).
Proof.
  intros max_try.
  pose proof (main_never_out_of_fuel sect max_pages d0) as Hfuel.
  destruct (main sect max_pages d0) as [[stop s'] its] eqn:Hrun.
  unfold main in Hrun. fold max_try in Hrun.
  pose proof Hrun as Hshape.
  apply while_loop_shape in Hshape as (Hreq & Hlen & Hceil & _).
  simpl in *. split; [lia|]. split; [done|]. split.
  - intros Hs. rewrite Hreq, (Hceil Hs). unfold seqZ. do 2 f_equal. lia.
  - intros Hlt. assert (its = []) as -> by (destruct its; [done|simpl in Hlen; lia]).
    split; [|done].
    destruct (Z.to_nat (max_try - 1)); simpl in Hrun;
      (case_decide; [lia|congruence]).
Qed.

(** X3: only the last iteration of a run can be one whose navigation failed
    (page control and "next" control both unusable), and the run ends with a
    navigation abort exactly when its last iteration is such a one; the page
    counter then still holds the number of the page that could not be
    reached. *)
Theorem navigation_failure_ends_the_run (max_pages : Z) (d0 : Driver) :
  let '(stop, s', its) := main sect max_pages d0 in
  (forall i it, its !! i = Some it -> added it = None -> S i = length its) /\
  (stop = NavigationAbort <-> exists it, last its = Some it /\ added it = None) /\
  (stop = NavigationAbort ->
   exists it, last its = Some it /\ page it = current s').
Proof.
  destruct (main sect max_pages d0) as [[stop s'] its] eqn:Hrun.
  unfold main in Hrun.
  apply while_loop_shape in Hrun as (_ & _ & _ & Hnone & Habort & _).
  split; [intros i it Hi Hn; by destruct (Hnone i it Hi Hn)|]. split.
  - split.
    + intros Hs. destruct (Habort Hs) as (it & Hl & Hn & _). eauto.
    + intros (it & Hl & Hn). rewrite last_lookup in Hl.
      by destruct (Hnone _ it Hl Hn).
  - intros Hs. destruct (Habort Hs) as (it & Hl & _ & Hp). eauto.
Qed.

(** X4: the number of records at the end of a run is the number stored from
    the first page plus the sum of the [new_count] values of the
    iterations. *)
Theorem final_size_is_seed_plus_new_counts (max_pages : Z) (d0 : Driver) :
  let '(_, s', its) := main sect max_pages d0 in
  Z.of_nat (size (all_items s')) =
    Z.of_nat (size (seed_items sect ∅ (extract_items_from_html (page_source d0))))
    + foldr Z.add 0 (new_counts its).
Proof.
  destruct (main sect max_pages d0) as [[stop s'] its] eqn:Hrun.
  unfold main in Hrun.
  by apply while_loop_shape in Hrun as (_ & _ & _ & _ & _ & Hacc).
Qed.

(** ** Keys and records *)

(** A record is well keyed when it is stored under its own [detail_url] and
    carries the section of the run. *)
Lemma seed_items_keyed (acc : gmap string ItemRecord) (items : list Item) :
  map_Forall (fun u r => detail_url r = u /\ section r = sect) acc ->
  map_Forall (fun u r => detail_url r = u /\ section r = sect)
             (seed_items sect acc items).
Proof.
  revert acc. induction items as [|it items IH]; intros acc Hacc; [done|].
  apply IH. by apply map_Forall_insert_2.
Qed.

Lemma merge_fold_keyed (items : list Item) (st : gmap string ItemRecord * Z) :
  map_Forall (fun u r => detail_url r = u /\ section r = sect) st.1 ->
  map_Forall (fun u r => detail_url r = u /\ section r = sect)
             (foldl (merge_item sect) st items).1.
Proof.
  revert st. induction items as [|it items IH]; intros st Hst; [done|].
  apply IH. unfold merge_item. destruct (st.1 !! it.2); [done|].
  by apply map_Forall_insert_2.
Qed.

Lemma loop_body_keyed (s s1 : LoopState) (o : option Stop) (it : Iteration) :
  loop_body sect s = (o, s1, it) ->
  map_Forall (fun u r => detail_url r = u /\ section r = sect) (all_items s) ->
  map_Forall (fun u r => detail_url r = u /\ section r = sect) (all_items s1).
Proof.
  unfold loop_body. intros Hbody Hs.
  destruct (fetch_items (driver s) (current s)) as [d [items|]].
  - pose proof (merge_fold_keyed items (all_items s, 0) Hs) as Hm.
    fold (merge_items sect (all_items s) items) in Hm.
    destruct (merge_items sect (all_items s) items) as [acc m].
    revert Hbody. case_decide; by intros [= <- <- <-].
  - by injection Hbody as <- <- <-.
Qed.

Lemma while_loop_keyed (fuel : nat) (max_try : Z) (s : LoopState) :
  map_Forall (fun u r => detail_url r = u /\ section r = sect) (all_items s) ->
  map_Forall (fun u r => detail_url r = u /\ section r = sect)
             (all_items (while_loop sect fuel max_try s).1.2).
Proof.
  revert s. induction fuel as [|fuel IH]; intros s Hs; simpl.
  - by case_decide.
  - case_decide; [|done].
    destruct (loop_body sect s) as [[o s1] it] eqn:Hbody.
    pose proof (loop_body_keyed _ _ _ _ Hbody Hs) as Hs1.
    destruct o as [reason|]; [done|].
    specialize (IH s1 Hs1).
    by destruct (while_loop sect fuel max_try s1) as [[stop s2] its].
Qed.

(** X5: at the end of every run each record of the accumulator is stored
    under its own [detail_url] and carries [args.section]; the rows written
    out therefore have pairwise different URLs. *)
Theorem records_are_keyed_by_their_url (max_pages : Z) (d0 : Driver) :
  let acc := all_items (main sect max_pages d0).1.2 in
  (forall u r, acc !! u = Some r -> detail_url r = u /\ section r = sect) /\
  (forall u1 u2 r1 r2, acc !! u1 = Some r1 -> acc !! u2 = Some r2 ->
                       u1 <> u2 -> detail_url r1 <> detail_url r2).
Proof.
  intros acc.
  assert (map_Forall (fun u r => detail_url r = u /\ section r = sect) acc) as Hkey.
  { subst acc. unfold main. apply while_loop_keyed. simpl.
    apply seed_items_keyed, map_Forall_empty. }
  split; [exact Hkey|].
  intros u1 u2 r1 r2 H1 H2 Hne.
  destruct (Hkey u1 r1 H1) as [-> _]. destruct (Hkey u2 r2 H2) as [-> _]. done.
Qed.

(** ** The merge as a union keyed by URL *)

Lemma merge_fold_dom (items : list Item) (st : gmap string ItemRecord * Z) :
  dom (foldl (merge_item sect) st items).1 = dom st.1 ∪ list_to_set (items.*2).
Proof.
  revert st. induction items as [|it items IH]; intros st; simpl.
  - set_solver.
  - rewrite IH. unfold merge_item. destruct (st.1 !! it.2) eqn:Hit; simpl.
    + assert (it.2 ∈ dom st.1) by (apply elem_of_dom; eauto). set_solver.
    + rewrite dom_insert_L. set_solver.
Qed.

Lemma seed_items_dom (acc : gmap string ItemRecord) (items : list Item) :
  dom (seed_items sect acc items) = dom acc ∪ list_to_set (items.*2).
Proof.
  revert acc. induction items as [|it items IH]; intros acc.
  - simpl. set_solver.
  - change (seed_items sect acc (it :: items))
      with (seed_items sect (<[it.2 := record_of sect it.1 it.2]> acc) items).
    rewrite IH, dom_insert_L. set_solver.
Qed.

Lemma size_urls_le (items : list Item) :
  (size (list_to_set (items.*2) : gset string) <= length items)%nat.
Proof.
  induction items as [|it items IH].
  - change (size (∅ : gset string) <= 0)%nat. by rewrite size_empty.
  - change (size ({[it.2]} ∪ list_to_set (items.*2) : gset string)
            <= S (length items))%nat.
    rewrite size_union_alt, size_singleton.
    pose proof (subseteq_size (list_to_set (items.*2) ∖ {[it.2]})
                  (list_to_set (items.*2) : gset string)
                  (subseteq_difference_l _ _ _ (reflexivity _))) as Hle.
    lia.
Qed.

(** X6: a merge adds exactly the URLs of the page to the keys of the
    accumulator, and [new_count] is the number of different URLs of the page
    that were not yet keys, however often the page repeats them. *)
Theorem merge_is_union_by_url (acc : gmap string ItemRecord) (items : list Item) :
  let urls : gset string := list_to_set (items.*2) in
  dom (merge_items sect acc items).1 = dom acc ∪ urls /\
  dom (seed_items sect acc items) = dom acc ∪ urls /\
  (merge_items sect acc items).2 = Z.of_nat (size (urls ∖ dom acc)) /\
  (merge_items sect acc items).2 <= Z.of_nat (length items).
Proof.
  intros urls.
  pose proof (merge_fold_dom items (acc, 0)) as Hdom.
  pose proof (merge_fold_count sect items (acc, 0)) as Hcount.
  fold (merge_items sect acc items) in Hdom, Hcount. simpl in Hdom, Hcount.
  fold urls in Hdom.
  assert ((merge_items sect acc items).2 = Z.of_nat (size (urls ∖ dom acc))) as Hn.
  { rewrite <- !size_dom, Hdom, size_union_alt in Hcount. lia. }
  split; [done|]. split; [apply seed_items_dom|]. split; [done|].
  rewrite Hn. apply inj_le.
  etrans; [apply (subseteq_size _ urls), subseteq_difference_l; reflexivity|].
  subst urls. apply size_urls_le.
Qed.

(** ** Which title is stored for a repeated URL *)

Lemma merge_fold_lookup_other (items : list Item) (st : gmap string ItemRecord * Z)
    (u : string) :
  u ∉ items.*2 -> (foldl (merge_item sect) st items).1 !! u = st.1 !! u.
Proof.
  revert st. induction items as [|it items IH]; intros st Hu; simpl; [done|].
  apply not_elem_of_cons in Hu as [Hne Hu]. rewrite IH by done.
  unfold merge_item. destruct (st.1 !! it.2); simpl; [done|].
  by rewrite lookup_insert_ne.
Qed.

Lemma seed_items_lookup_other (items : list Item) (acc : gmap string ItemRecord)
    (u : string) :
  u ∉ items.*2 -> seed_items sect acc items !! u = acc !! u.
Proof.
  revert acc. induction items as [|it items IH]; intros acc Hu; [done|].
  apply not_elem_of_cons in Hu as [Hne Hu].
  change (seed_items sect acc (it :: items))
    with (seed_items sect (<[it.2 := record_of sect it.1 it.2]> acc) items).
  rewrite IH by done. by rewrite lookup_insert_ne.
Qed.

(** X7: for a URL that a page lists more than once, the merge of a later
    page stores the title of its first occurrence (when the URL is new),
    whereas the plain assignment used for the first page stores the title of
    its last occurrence, also over a record already present. *)
Theorem first_title_wins_later_last_title_wins_on_page_one
    (acc : gmap string ItemRecord) (before after : list Item) (t u : string) :
  (acc !! u = None -> u ∉ before.*2 ->
   (merge_items sect acc (before ++ (t, u) :: after)).1 !! u
   = Some (record_of sect t u)) /\
  (u ∉ after.*2 ->
   seed_items sect acc (before ++ (t, u) :: after) !! u = Some (record_of sect t u)).
Proof.
  split.
  - intros Hnew Hu. unfold merge_items. rewrite foldl_app. simpl.
    apply merge_fold_lookup. unfold merge_item. simpl.
    rewrite merge_fold_lookup_other by done. simpl. rewrite Hnew. simpl.
    apply lookup_insert_eq.
  - intros Hu.
    assert (seed_items sect acc (before ++ (t, u) :: after)
            = seed_items sect (<[u := record_of sect t u]> (seed_items sect acc before))
                after) as -> by (unfold seed_items; by rewrite foldl_app).
    rewrite seed_items_lookup_other by done. apply lookup_insert_eq.
Qed.

End Loop.

Lemma first_title_wins_later_last_title_wins_on_page_one_witness :
  (merge_items "national" ∅ [("First", "u"); ("Second", "u")]).1 !! "u"
  = Some (record_of "national" "First" "u") /\
  seed_items "national" ∅ [("First", "u"); ("Second", "u")] !! "u"
  = Some (record_of "national" "Second" "u").
Proof.
  split.
  - apply (proj1 (first_title_wins_later_last_title_wins_on_page_one
                    "national" ∅ [] [("Second", "u")] "First" "u"));
      [reflexivity|apply not_elem_of_nil].
  - apply (proj2 (first_title_wins_later_last_title_wins_on_page_one
                    "national" ∅ [("First", "u")] [] "Second" "u")).
    apply not_elem_of_nil.
Defined.

End CollectMore.

(** * Further properties of the string primitives *)

Module PyMore.
Import Py PyFacts.

Lemma prefix_of_char (c a : ascii) (s : string) :
  prefix_of (String c "") (String a s) = bool_decide (c = a).
Proof. simpl. by case_decide; [rewrite bool_decide_eq_true_2|rewrite bool_decide_eq_false_2]. Qed.

Lemma contains_char (c : ascii) (s : string) :
  contains (String c "") s = char_in c s.
Proof.
  induction s as [|a s IH]; [done|].
  cbn [contains char_in]. rewrite prefix_of_char.
  case_decide; [by rewrite bool_decide_eq_true_2|by rewrite bool_decide_eq_false_2].
Qed.

Lemma char_in_app (c : ascii) (a b : string) :
  char_in c (a +:+ b) = char_in c a || char_in c b.
Proof.
  induction a as [|x a IH]; [done|]. rewrite str_app_cons. simpl.
  by case_decide.
Qed.

(** ** Splitting at a character *)

Lemma split_char_pieces (c : ascii) (s : string) :
  Forall (fun piece => char_in c piece = false) (split (String c "") s).
Proof.
  unfold split. induction s as [|a s IH]; [by repeat constructor|].
  cbn [split_go]. rewrite prefix_of_char. case_bool_decide as Hca.
  - constructor; [done|exact IH].
  - destruct (split_go (String c "") 0 s) as [|piece pieces].
    + constructor; [|done]. simpl. by case_decide.
    + apply Forall_cons in IH as [Hp Hps]. constructor; [|done].
      simpl. by case_decide.
Qed.

Lemma split_char_nonempty (c : ascii) (s : string) : split (String c "") s <> [].
Proof.
  unfold split. destruct s as [|a s]; [done|].
  cbn [split_go]. rewrite prefix_of_char. case_bool_decide; [done|].
  by destruct (split_go (String c "") 0 s).
Qed.

Lemma split_char_app (c : ascii) (piece rest : string) :
  char_in c piece = false ->
  split (String c "") (piece +:+ String c rest) = piece :: split (String c "") rest.
Proof.
  unfold split. induction piece as [|a piece IH]; intros Hp.
  - change ("" +:+ String c rest) with (String c rest).
    cbn [split_go]. rewrite prefix_of_char, bool_decide_eq_true_2 by done. done.
  - simpl in Hp. case_decide as Hca; [done|].
    rewrite str_app_cons. cbn [split_go].
    rewrite prefix_of_char, bool_decide_eq_false_2 by done.
    by rewrite IH.
Qed.

Lemma split_char_none (c : ascii) (piece : string) :
  char_in c piece = false -> split (String c "") piece = [piece].
Proof.
  unfold split. induction piece as [|a piece IH]; intros Hp; [done|].
  simpl in Hp. case_decide as Hca; [done|].
  cbn [split_go]. rewrite prefix_of_char, bool_decide_eq_false_2 by done.
  by rewrite IH.
Qed.

Lemma split1_char_app (c : ascii) (k v : string) :
  char_in c k = false -> split1 (String c "") (k +:+ String c v) = [k; v].
Proof.
  induction k as [|a k IH]; intros Hk.
  - change ("" +:+ String c v) with (String c v).
    cbn [split1]. rewrite prefix_of_char, bool_decide_eq_true_2 by done. done.
  - simpl in Hk. case_decide as Hca; [done|].
    rewrite str_app_cons. cbn [split1].
    rewrite prefix_of_char, bool_decide_eq_false_2 by done.
    by rewrite IH.
Qed.

Lemma split1_char_found (c : ascii) (s : string) :
  char_in c s = true ->
  exists k v, split1 (String c "") s = [k; v] /\ s = k +:+ String c v /\
              char_in c k = false.
Proof.
  induction s as [|a s IH]; intros Hs; [done|].
  cbn [split1]. rewrite prefix_of_char. case_bool_decide as Hca.
  - subst a. by exists "", s.
  - simpl in Hs. case_decide; [done|].
    destruct (IH Hs) as (k & v & -> & -> & Hk).
    exists (String a k), v. split; [done|]. split; [done|].
    simpl. by case_decide.
Qed.

(** ** Stripping *)

Lemma lstrip_by_keeps (ws : ascii -> bool) (c : ascii) (s : string) :
  ws c = false -> char_in c (lstrip_by ws s) = char_in c s.
Proof.
  intros Hc. induction s as [|a s IH]; [done|]. simpl.
  destruct (ws a) eqn:Ha; [|done].
  rewrite IH. case_decide; [congruence|done].
Qed.

Lemma rstrip_by_keeps (ws : ascii -> bool) (c : ascii) (s : string) :
  ws c = false -> char_in c (rstrip_by ws s) = char_in c s.
Proof.
  intros Hc. induction s as [|a s IH]; [done|]. cbn [rstrip_by].
  destruct (rstrip_by ws s) as [|b r] eqn:Hr.
  - simpl in IH. destruct (ws a) eqn:Ha; simpl.
    + case_decide; [congruence|done].
    + by rewrite <- IH.
  - cbn [char_in]. cbn [char_in] in IH. by rewrite <- IH.
Qed.

Lemma lstrip_by_sub (ws : ascii -> bool) (c : ascii) (s : string) :
  char_in c (lstrip_by ws s) = true -> char_in c s = true.
Proof.
  induction s as [|a s IH]; [done|]. simpl.
  destruct (ws a); [|done]. intros Hc. case_decide; [done|by apply IH].
Qed.

Lemma rstrip_by_sub (ws : ascii -> bool) (c : ascii) (s : string) :
  char_in c (rstrip_by ws s) = true -> char_in c s = true.
Proof.
  induction s as [|a s IH]; [done|]. cbn [rstrip_by].
  destruct (rstrip_by ws s) as [|b r] eqn:Hr.
  - destruct (ws a); [done|]. simpl. by case_decide.
  - cbn [char_in]. case_decide; [done|]. exact IH.
Qed.

Lemma strip_by_sub (ws : ascii -> bool) (c : ascii) (s : string) :
  char_in c (strip_by ws s) = true -> char_in c s = true.
Proof. unfold strip_by. intros Hc. by apply rstrip_by_sub, lstrip_by_sub in Hc. Qed.

Lemma rstrip_by_cons (ws : ascii -> bool) (c : ascii) (s : string) :
  ws c = false -> rstrip_by ws (String c s) = String c (rstrip_by ws s).
Proof. intros Hc. cbn [rstrip_by]. rewrite Hc. by destruct (rstrip_by ws s). Qed.

Lemma rstrip_by_app (ws : ascii -> bool) (a b : string) :
  rstrip_by ws b <> "" -> rstrip_by ws (a +:+ b) = a +:+ rstrip_by ws b.
Proof.
  intros Hb. induction a as [|x a IH]; [done|].
  rewrite !str_app_cons. cbn [rstrip_by]. rewrite IH.
  destruct (a +:+ rstrip_by ws b) eqn:Hab; [|done].
  destruct a; [|done]. by destruct Hb.
Qed.

(** ** Lower case *)

Lemma lower_char_idemp (c : ascii) : lower_char (lower_char c) = lower_char c.
Proof. destruct c as [[] [] [] [] [] [] [] []]; vm_compute; reflexivity. Qed.

Lemma lower_char_eq (c x : ascii) :
  (nat_of_ascii x < 65 \/ 90 < nat_of_ascii x)%nat -> (nat_of_ascii x < 97 \/ 122 < nat_of_ascii x)%nat ->
  lower_char c = x -> c = x.
Proof.
  unfold lower_char. case_decide as Hc; [|done].
  intros Hx1 Hx2 <-. rewrite nat_ascii_embedding in Hx2 by lia. lia.
Qed.

Lemma lower_idemp (s : string) : lower (lower s) = lower s.
Proof. induction s as [|c s IH]; [done|]. simpl. by rewrite lower_char_idemp, IH. Qed.

Lemma lower_nonempty (s : string) : s <> "" -> lower s <> "".
Proof. by destruct s. Qed.

Lemma lower_keeps_comma (s : string) : char_in ","%char (lower s) = char_in ","%char s.
Proof.
  induction s as [|c s IH]; [done|]. simpl. rewrite IH.
  repeat case_decide; try done.
  - exfalso. match goal with H : ","%char = lower_char c |- _ =>
      symmetry in H; apply lower_char_eq in H; [congruence|vm_compute; lia..] end.
  - subst c. done.
Qed.

End PyMore.

(** * Further properties of the download routine *)

Module DownloadMore.
Import Py PyFacts PyMore Download Notions DownloadFacts.

Section WithLib.
Context `{!PyLib}.

(** ** File names *)

Lemma sanitize_length (s : string) : String.length (sanitize s) = String.length s.
Proof. induction s as [|c s IH]; [done|]. simpl. by rewrite IH. Qed.

Lemma take_length (n : nat) (s : string) :
  String.length (take n s) = Nat.min n (String.length s).
Proof.
  revert s. induction n as [|n IH]; intros [|c s]; simpl; try done.
  by rewrite IH.
Qed.

Lemma take_sub (n : nat) (c : ascii) (s : string) :
  char_in c (take n s) = true -> char_in c s = true.
Proof.
  revert s. induction n as [|n IH]; intros [|a s]; simpl; try done.
  case_decide; [done|]. apply IH.
Qed.

Lemma take_take (n : nat) (s : string) : take n (take n s) = take n s.
Proof. revert s. induction n as [|n IH]; intros [|c s]; simpl; try done. by rewrite IH. Qed.

Lemma sanitize_take (n : nat) (s : string) : sanitize (take n s) = take n (sanitize s).
Proof. revert s. induction n as [|n IH]; intros [|c s]; simpl; try done. by rewrite IH. Qed.

Lemma sanitize_allowed (c : ascii) (s : string) :
  char_in c (sanitize s) = true -> isalnum c || char_in c " ._-()" = true.
Proof.
  induction s as [|a s IH]; [done|]. cbn [sanitize].
  remember " ._-()" as allowed eqn:Hal. cbn [char_in].
  case_decide as Hc; [|exact IH]. intros _. subst c.
  destruct (isalnum a || char_in a allowed) eqn:Ha; [done|].
  subst allowed. apply orb_true_r.
Qed.

Lemma sanitize_idemp (s : string) : sanitize (sanitize s) = sanitize s.
Proof.
  induction s as [|a s IH]; [done|]. cbn [sanitize]. rewrite IH. f_equal.
  remember " ._-()" as allowed eqn:Hal.
  destruct (isalnum a || char_in a allowed) eqn:Ha; [by rewrite Ha|].
  subst allowed. by rewrite orb_true_r.
Qed.

(** X9: [safe_filename] keeps the length of the title up to 180 characters,
    and every character of its result is alphanumeric or one of the space,
    the dot, the underscore, the hyphen and the two parentheses; when ['/']
    is not alphanumeric, the result contains no ['/'] and so names a file
    directly in the section directory. *)
Theorem safe_filename_is_bounded_and_clean (s : string) :
  String.length (safe_filename s) = Nat.min 180 (String.length s) /\
  (forall c, char_in c (safe_filename s) = true ->
             isalnum c || char_in c " ._-()" = true) /\
  (isalnum "/"%char = false -> contains "/" (safe_filename s) = false).
Proof.
  unfold safe_filename. split; [by rewrite take_length, sanitize_length|].
  assert (forall c, char_in c (take 180 (sanitize s)) = true ->
                    isalnum c || char_in c " ._-()" = true) as Hall.
  { intros c Hc. by apply take_sub, sanitize_allowed in Hc. }
  split; [done|]. intros Hslash.
  change "/" with (String "/"%char "") at 1. rewrite contains_char.
  destruct (char_in "/"%char (take 180 (sanitize s))) eqn:Hc; [|done].
  apply Hall in Hc. by rewrite Hslash in Hc.
Qed.

(** X10: [safe_filename] changes nothing in a name it has produced: applying
    it twice is the same as applying it once. *)
Theorem safe_filename_is_idempotent (s : string) :
  safe_filename (safe_filename s) = safe_filename s.
Proof.
  unfold safe_filename. by rewrite sanitize_take, sanitize_idemp, take_take.
Qed.

(** ** Extensions *)

Lemma split_last_dot_ext (s root ext : string) :
  split_last_dot s = Some (root, ext) -> prefix_of "." ext = true.
Proof.
  revert root ext. induction s as [|c s IH]; intros root ext; simpl; [done|].
  destruct (split_last_dot s) as [[r e]|].
  - intros [= <- <-]. by eapply IH.
  - case_decide as Hc; [|done]. intros [= <- <-]. subst c. done.
Qed.

Lemma os_path_splitext_ext (p : string) :
  (os_path_splitext p).2 = "" \/
  (prefix_of "." (os_path_splitext p).2 = true /\
   contains "/" (os_path_splitext p).2 = false).
Proof.
  unfold os_path_splitext.
  destruct (split_last_dot p) as [[root ext]|] eqn:Hs; simpl; [|by left].
  destruct (contains "/" ext) eqn:Hc; simpl; [by left|].
  destruct (all_dots (basename root)); simpl; [by left|].
  right. split; [by eapply split_last_dot_ext|done].
Qed.

(** X11: whatever the response, an extension chosen by the classifier is
    not empty, starts with a dot and contains no ['/']: the file name built
    from it always carries a suffix and stays within its directory. *)
Theorem chosen_extension_is_well_formed (r : Response) (ctype ext : string) :
  choose_ext r ctype = inr (Some ext) ->
  ext <> "" /\ prefix_of "." ext = true /\ contains "/" ext = false.
Proof.
  unfold choose_ext.
  destruct (contains "pdf" ctype); [by intros [= <-]|].
  destruct (contains WORDML ctype || contains "word" ctype || contains "msword" ctype).
  { destruct (contains WORDML ctype); by intros [= <-]. }
  destruct (contains "filename=" (default "" (content_disposition r))).
  - intros [= <-].
    destruct (os_path_splitext_ext
                (strip QUOTE_SPACE
                   (split_last "filename=" (default "" (content_disposition r)))))
      as [He|[Hdot Hslash]].
    + rewrite He. by rewrite decide_True.
    + case_decide as He; [done|]. repeat split; try done.
  - destruct (raw_read8 r) as [msg|head]; [done|].
    destruct (raw_seek_error r); [done|].
    destruct (bytes_startswith PDF_MAGIC head); [by intros [= <-]|done].
Qed.

(** ** Requests, sleeps and files during a run *)

Variable session : Session.

Lemma type_code_cases (t : string) : type_code t = 1 \/ type_code t = 2.
Proof. unfold type_code. case_decide; auto. Qed.

Lemma attempt_once_files (j : Job) (typ a : Z) (w : World) (p : string) :
  (forall q, p <> q +:+ ".part") ->
  is_Some (fs w !! p) ->
  is_Some (fs (attempt_once session j typ a w).1 !! p).
Proof.
  intros Hpart Hp.
  destruct (attempt_once session j typ a w) as [w' [msg|outpath]] eqn:Hone; simpl.
  - apply attempt_once_failed in Hone as (_ & _ & Hkeep). by apply Hkeep.
  - apply attempt_once_saved in Hone as (_ & _ & r & ext & _ & _ & _ & _ & _ & ->).
    destruct (save_lookup outpath (chunks r) (fs w)) as (Hnew & _ & Hother).
    destruct (decide (p = outpath)) as [->|Hne]; [rewrite Hnew; eauto|].
    by rewrite Hother.
Qed.

Lemma attempt_loop_files (j : Job) (typ : Z) (n : nat) (a : Z) (le : option string)
    (w : World) (p : string) :
  (forall q, p <> q +:+ ".part") ->
  is_Some (fs w !! p) ->
  is_Some (fs (attempt_loop session j typ n a le w).1.1 !! p).
Proof.
  intros Hpart. revert a le w. induction n as [|n IH]; intros a le w Hp; [done|].
  simpl. pose proof (attempt_once_files j typ a w p Hpart Hp) as Hone.
  destruct (attempt_once session j typ a w) as [w1 [msg|outpath]]; [|done].
  by apply IH.
Qed.

(** What a run of the loop over the types sends, sleeps, keeps and returns. *)
Lemma types_loop_run (j : Job) (retries : Z) (types saved : list string)
    (w w' : World) (ok : bool) (info : Info) :
  types_loop session j retries types saved w = (w', (ok, info)) ->
  (exists new,
     requests w' = requests w ++ new /\
     (length new <= length types * Z.to_nat (retries + 1))%nat /\
     (ok = true -> (length types <= length new)%nat) /\
     Forall (fun rq => rq = request_of j 1 \/ rq = request_of j 2) new) /\
  sleeps w `prefix_of` sleeps w' /\
  (forall p, (forall q, p <> q +:+ ".part") ->
             is_Some (fs w !! p) -> is_Some (fs w' !! p)) /\
  (ok = true ->
   exists more, info = Saved (saved ++ more) /\ length more = length types) /\
  (ok = false ->
   exists t last_err, t ∈ types /\
                      info = Msg ("fail_" +:+ t +:+ ":" +:+ str_of last_err)).
Proof.
  revert saved w. induction types as [|t types IH]; intros saved w; simpl.
  - intros [= <- <- <-]. split; [exists []; by rewrite app_nil_r|].
    split; [done|]. split; [done|]. split; [|done].
    intros _. exists []. by rewrite app_nil_r.
  - destruct (try_type session j retries t w) as [[w1 got] le] eqn:Htry.
    pose proof (attempt_loop_files j (type_code t) (Z.to_nat (retries + 1)) 0 None w)
      as Hfiles.
    unfold try_type in Htry. rewrite Htry in Hfiles. simpl in Hfiles.
    apply attempt_loop_log in Htry as (failed & Hle & Hreq & Hsl & _ & _).
    assert (Forall (fun rq => rq = request_of j 1 \/ rq = request_of j 2)
              (replicate (failed + (if got is Some _ then 1 else 0))
                 (request_of j (type_code t)))) as Hall.
    { apply Forall_replicate. destruct (type_code_cases t) as [-> | ->]; auto. }
    destruct got as [outpath|].
    + intros Hrest.
      apply IH in Hrest as ((new & Hreq' & Hlen & Hmin & Hnew) & Hsl' & Hkeep & Hok & Hbad).
      split; [|split; [|split; [|split]]].
      * exists (replicate (failed + 1) (request_of j (type_code t)) ++ new).
        split; [by rewrite Hreq', Hreq, <- app_assoc|].
        rewrite length_app, length_replicate. split; [lia|]. split.
        -- intros Hk. specialize (Hmin Hk). lia.
        -- by apply Forall_app.
      * etrans; [|exact Hsl']. rewrite Hsl. by apply prefix_app_r.
      * intros p Hpart Hp. by apply Hkeep, Hfiles.
      * intros Hk. destruct (Hok Hk) as (more & -> & Hm).
        exists (outpath :: more). rewrite <- app_assoc. simpl. split; [done|].
        by rewrite Hm.
      * intros Hk. destruct (Hbad Hk) as (t' & le' & Ht' & ->).
        exists t', le'. split; [by apply list_elem_of_further|done].
    + intros [= <- <- <-].
      split; [|split; [|split; [|split]]].
      * exists (replicate (failed + 0) (request_of j (type_code t))).
        split; [done|]. rewrite length_replicate. split; [lia|]. done.
      * rewrite Hsl. by apply prefix_app_r.
      * done.
      * done.
      * intros _. exists t, le. split; [apply list_elem_of_here|done].
Qed.

(** The three ways [download_one] proceeds. *)
Lemma download_one_cases (entry : gmap string string) (outdir : string)
    (types : list string) (retries : Z) (w : World) :
  (truthy (entry_detail_url entry) = false /\
   download_one session entry outdir types retries w
   = (w, (false, Msg "no_detail_url"))) \/
  (exists url,
     entry_detail_url entry = Some url /\ url <> "" /\
     truthy (extract_uid url) = false /\
     download_one session entry outdir types retries w = (w, (false, Msg "no_id"))) \/
  (exists url uid,
     entry_detail_url entry = Some url /\ url <> "" /\
     extract_uid url = Some uid /\ uid <> "" /\
     download_one session entry outdir types retries w
     = types_loop session
         {| job_outdir := outdir; job_detail_url := url;
            job_title := entry_title entry; job_section := entry_section entry;
            job_uid := uid |} retries types [] w).
Proof.
  unfold download_one.
  destruct (entry_detail_url entry) as [[|c u]|] eqn:Hurl; [by left|..|by left].
  right. destruct (extract_uid (String c u)) as [[|d i]|] eqn:Huid.
  - left. exists (String c u). by rewrite Huid.
  - right. by exists (String c u), (String d i).
  - left. exists (String c u). by rewrite Huid.
Qed.

(** X12: every request that [download_one] sends goes to the download
    endpoint with the id extracted from the record and the type code 1 or 2,
    and carries the detail URL of the record as referer; the requests logged
    before are kept, and at most [len(types) * (retries + 1)] are added. *)
Theorem requests_go_to_the_download_endpoint (entry : gmap string string)
    (outdir : string) (types : list string) (retries : Z) (w : World) :
  exists new,
    requests (download_one session entry outdir types retries w).1
    = requests w ++ new /\
    (length new <= length types * Z.to_nat (retries + 1))%nat /\
    Forall (fun rq =>
              exists url uid code,
                entry_detail_url entry = Some url /\ extract_uid url = Some uid /\
                (code = 1 \/ code = 2) /\
                req_url rq = DOWNLOAD_API uid code /\ req_referer rq = url) new.
Proof.
  destruct (download_one_cases entry outdir types retries w)
    as [[_ ->]|[(url & _ & _ & _ & ->)|(url & uid & Hurl & _ & Huid & _ & ->)]].
  - exists []. simpl. rewrite app_nil_r. split; [done|]. split; [lia|done].
  - exists []. simpl. rewrite app_nil_r. split; [done|]. split; [lia|done].
  - match goal with |- context [types_loop session ?j _ _ _ _] => set (jb := j) end.
    destruct (types_loop session jb retries types [] w) as [w' [ok info]] eqn:Hrun.
    apply types_loop_run in Hrun as ((new & Hreq & Hlen & _ & Hall) & _).
    exists new. split; [done|]. split; [done|].
    eapply Forall_impl; [exact Hall|]. simpl.
    intros rq [-> | ->]; [exists url, uid, 1|exists url, uid, 2]; auto 10.
Qed.

(** X13: the flag returned by [download_one] tells the kind of its second
    component: with [True] it is the list of saved paths, one per requested
    type and in their order, and at least one request was sent per type;
    with [False] it is one of the messages [no_detail_url], [no_id] and
    [fail_<t>:<err>] for a requested type [t]. *)
Theorem result_shape (entry : gmap string string) (outdir : string)
    (types : list string) (retries : Z) (w : World) :
  let '(w', (ok, info)) := download_one session entry outdir types retries w in
  (ok = true ->
   exists saved, info = Saved saved /\ length saved = length types /\
                 (length (requests w) + length types <= length (requests w'))%nat) /\
  (ok = false ->
   info = Msg "no_detail_url" \/ info = Msg "no_id" \/
   exists t last_err, t ∈ types /\
                      info = Msg ("fail_" +:+ t +:+ ":" +:+ str_of last_err)).
Proof.
  destruct (download_one_cases entry outdir types retries w)
    as [[_ ->]|[(url & _ & _ & _ & ->)|(url & uid & _ & _ & _ & _ & ->)]].
  - split; [done|auto].
  - split; [done|auto].
  - match goal with |- context [types_loop session ?j _ _ _ _] => set (jb := j) end.
    destruct (types_loop session jb retries types [] w) as [w' [ok info]] eqn:Hrun.
    apply types_loop_run in Hrun as ((new & Hreq & _ & Hmin & _) & _ & _ & Hok & Hbad).
    split.
    + intros Hk. destruct (Hok Hk) as (more & -> & Hm). exists more.
      split; [done|]. split; [done|]. rewrite Hreq, length_app.
      specialize (Hmin Hk). lia.
    + intros Hk. right. right. by apply Hbad.
Qed.

(** X14: [download_one] removes no file other than a [.part] sibling: a
    path that does not end in [.part] and names a file before the call still
    names a file after it; and the sleeps logged before are kept. *)
Theorem only_part_files_are_removed (entry : gmap string string)
    (outdir : string) (types : list string) (retries : Z) (w : World) :
  let w' := (download_one session entry outdir types retries w).1 in
  (forall p, (forall q, p <> q +:+ ".part") ->
             is_Some (fs w !! p) -> is_Some (fs w' !! p)) /\
  sleeps w `prefix_of` sleeps w'.
Proof.
  destruct (download_one_cases entry outdir types retries w)
    as [[_ ->]|[(url & _ & _ & _ & ->)|(url & uid & _ & _ & _ & _ & ->)]];
    [done..|].
  match goal with |- context [types_loop session ?j _ _ _ _] => set (jb := j) end.
  destruct (types_loop session jb retries types [] w) as [w' [ok info]] eqn:Hrun.
  by apply types_loop_run in Hrun as (_ & Hsl & Hkeep & _).
Qed.

(** X15: with a negative [retries] the range of attempts is empty: for a
    record with a usable id and a non-empty list of types, [download_one]
    sends nothing, touches nothing and returns [fail_<t>:None] for the first
    type [t]. *)
Theorem negative_retries_try_nothing (entry : gmap string string)
    (outdir : string) (t : string) (types : list string) (retries : Z) (w : World)
    (url uid : string) :
  entry_detail_url entry = Some url -> url <> "" ->
  extract_uid url = Some uid -> uid <> "" ->
  retries < 0 ->
  download_one session entry outdir (t :: types) retries w
  = (w, (false, Msg ("fail_" +:+ t +:+ ":None"))).
Proof.
  intros Hurl Hne Huid Hne' Hneg. unfold download_one. rewrite Hurl.
  destruct url as [|c u]; [done|]. rewrite Huid.
  destruct uid as [|d i]; [done|]. simpl. unfold try_type.
  replace (Z.to_nat (retries + 1)) with O by lia. done.
Qed.

(** X16: [download_one] answers [no_detail_url] exactly when the record has
    no detail URL under any of its three names, and [no_id] exactly when it
    has one from which no id is obtained. *)
Theorem early_failures_are_exact (entry : gmap string string) (outdir : string)
    (types : list string) (retries : Z) (w : World) :
  ((download_one session entry outdir types retries w).2 = (false, Msg "no_detail_url")
   <-> truthy (entry_detail_url entry) = false) /\
  ((download_one session entry outdir types retries w).2 = (false, Msg "no_id")
   <-> exists url, entry_detail_url entry = Some url /\ url <> "" /\
                   truthy (extract_uid url) = false).
Proof.
  assert (forall jb res,
            (types_loop session jb retries types [] w).2 = (false, Msg res) ->
            exists t le, res = "fail_" +:+ t +:+ ":" +:+ str_of le) as Hfail.
  { intros jb res Hres.
    destruct (types_loop session jb retries types [] w) as [w' [ok info]] eqn:Hrun.
    apply types_loop_run in Hrun as (_ & _ & _ & _ & Hbad).
    simpl in Hres. injection Hres as -> ->.
    destruct (Hbad eq_refl) as (t & le & _ & [= ->]). eauto. }
  destruct (download_one_cases entry outdir types retries w)
    as [[Hno ->]|[(url & Hurl & Hne & Hid & ->)|(url & uid & Hurl & Hne & Huid & Hne' & ->)]];
    simpl.
  - split; [done|]. split; [done|].
    intros (url & Hurl & Hne & _). rewrite Hurl in Hno. by destruct url.
  - split.
    + split; [done|]. rewrite Hurl. by destruct url.
    + split; [eauto|done].
  - split; split.
    + intros Hres. by destruct (Hfail _ _ Hres) as (t & le & ?).
    + rewrite Hurl. by destruct url.
    + intros Hres. by destruct (Hfail _ _ Hres) as (t & le & ?).
    + intros (url' & Hurl' & _ & Hid). rewrite Hurl in Hurl'.
      injection Hurl' as <-. rewrite Huid in Hid. by destruct uid.
Qed.

End WithLib.

Section Ids.
Context `{!PyLib}.

(** X17: the id found in the query string takes precedence; the id found by
    the search for [id=] is the text between the last [id=] of the URL and
    the next [&], so it contains no [&]. *)
Theorem fallback_id_has_no_ampersand (url uid : string) :
  extract_uid url = Some uid ->
  (truthy (query_id url) = true -> query_id url = Some uid) /\
  (truthy (query_id url) = false ->
   (contains "id=" url = true /\
    uid = split_first "&" (split_last "id=" url) /\
    char_in "&"%char uid = false) \/
   (contains "id=" url = false /\ uid = "" /\ query_id url = Some "")).
Proof.
  unfold extract_uid. destruct (truthy (query_id url)) eqn:Hq; [done|].
  intros Hu. split; [done|]. intros _.
  destruct (contains "id=" url).
  - left. injection Hu as <-. split; [done|]. split; [done|].
    unfold split_first.
    pose proof (split_char_pieces "&"%char (split_last "id=" url)) as Hall.
    change (String "&"%char "") with "&" in Hall.
    destruct (split "&" (split_last "id=" url)) as [|piece pieces]; [done|].
    by apply Forall_cons in Hall as [Hp _].
  - right. rewrite Hu in Hq. destruct uid; [done|done].
Qed.

End Ids.

Section Rejections.
Context `{!PyLib}.
Variable session : Session.


End Rejections.

Section Glue.
Context `{!StrLib}.

(** ** The cookie string *)

Lemma split_char_sub (c d : ascii) (s : string) :
  char_in d s = false ->
  Forall (fun piece => char_in d piece = false) (split (String c "") s).
Proof.
  unfold split. induction s as [|a s IH]; intros Hs; [by repeat constructor|].
  simpl in Hs. case_decide as Hda; [done|].
  cbn [split_go]. rewrite prefix_of_char. case_bool_decide as Hca.
  - constructor; [done|by apply IH].
  - specialize (IH Hs).
    destruct (split_go (String c "") 0 s) as [|piece pieces].
    + constructor; [|done]. simpl. by rewrite decide_False.
    + apply Forall_cons in IH as [Hp Hps]. constructor; [|done].
      simpl. by rewrite decide_False.
Qed.

Lemma add_cookie_ok (m : gmap string string) (part : string) :
  isspace "="%char = false ->
  char_in ";"%char part = false ->
  cookie_ok m ->
  exists m', add_cookie (Some m) part = Some m' /\ cookie_ok m' /\
             (char_in "="%char part = false -> m' = m).
Proof.
  intros Heq Hsemi Hm. unfold add_cookie.
  change "=" with (String "="%char "") at 1. rewrite contains_char.
  destruct (char_in "="%char part) eqn:Hhas; [|by exists m].
  assert (char_in "="%char (strip_by isspace part) = true) as Hstrip.
  { unfold strip_by. by rewrite rstrip_by_keeps, lstrip_by_keeps. }
  assert (char_in ";"%char (strip_by isspace part) = false) as Hsemi'.
  { destruct (char_in ";"%char (strip_by isspace part)) eqn:Hc; [|done].
    apply strip_by_sub in Hc. congruence. }
  destruct (split1_char_found _ _ Hstrip) as (k & v & Hsplit & Hpart & Hk).
  change (String "="%char "") with "=" in Hsplit. rewrite Hsplit.
  rewrite Hpart, char_in_app in Hsemi'. apply orb_false_elim in Hsemi' as [Hks Hvs].
  simpl in Hvs.
  exists (<[k := v]> m). split; [done|]. split; [|done].
  intros k' v' Hl. destruct (decide (k = k')) as [<-|Hne].
  - rewrite lookup_insert_eq in Hl. by injection Hl as <-.
  - rewrite lookup_insert_ne in Hl by done. by apply Hm.
Qed.

Lemma fold_cookies_ok (parts : list string) (m : gmap string string) :
  isspace "="%char = false ->
  Forall (fun part => char_in ";"%char part = false) parts ->
  cookie_ok m ->
  exists m', foldl add_cookie (Some m) parts = Some m' /\ cookie_ok m' /\
             (Forall (fun part => char_in "="%char part = false) parts -> m' = m).
Proof.
  intros Heq. revert m. induction parts as [|part parts IH]; intros m Hparts Hm.
  - by exists m.
  - apply Forall_cons in Hparts as [Hp Hps].
    destruct (add_cookie_ok m part Heq Hp Hm) as (m1 & Hstep & Hm1 & Hsame).
    destruct (IH m1 Hps Hm1) as (m' & Hrest & Hm' & Hsame').
    exists m'. cbn [foldl]. rewrite Hstep. split; [done|]. split; [done|].
    intros Hall. apply Forall_cons in Hall as [Hq Hqs].
    by rewrite (Hsame' Hqs), (Hsame Hq).
Qed.

(** X20: [parse_cookie_string] never fails on the unpacking of a part (the
    equals sign not being white space): it returns a dict in which no name
    contains an equals sign or a semicolon and no value contains a
    semicolon; a string without an equals sign gives the empty dict. *)
Theorem parse_cookie_string_returns_clean_pairs (cookie_str : string) :
  isspace "="%char = false ->
  exists cookies,
    parse_cookie_string cookie_str = Some cookies /\
    (forall k v, cookies !! k = Some v ->
                 char_in "="%char k = false /\ char_in ";"%char k = false /\
                 char_in ";"%char v = false) /\
    (contains "=" cookie_str = false -> cookies = ∅).
Proof.
  intros Heq. unfold parse_cookie_string.
  destruct (fold_cookies_ok (split ";" cookie_str) ∅ Heq) as (m & Hrun & Hm & Hsame).
  - apply (split_char_pieces ";"%char).
  - intros k v Hl. by rewrite lookup_empty in Hl.
  - exists m. split; [done|]. split; [done|].
    change "=" with (String "="%char "") at 1. rewrite contains_char.
    intros Hno. apply Hsame. by apply (split_char_sub ";"%char).
Qed.

Lemma lstrip_by_length (s : string) :
  (String.length (lstrip_by isspace s) <= String.length s)%nat.
Proof. induction s as [|c s IH]; [done|]. simpl. destruct (isspace c); simpl; lia. Qed.

Lemma lstrip_by_fixed (k rest : string) :
  isspace "="%char = false ->
  lstrip_by isspace k = k ->
  lstrip_by isspace (k +:+ String "="%char rest) = k +:+ String "="%char rest.
Proof.
  intros Heq Hk. destruct k as [|c k].
  - change ("" +:+ String "="%char rest) with (String "="%char rest).
    simpl. by rewrite Heq.
  - rewrite str_app_cons. simpl in *. destruct (isspace c); [|done].
    pose proof (lstrip_by_length k) as Hlen. rewrite Hk in Hlen. simpl in Hlen. lia.
Qed.

Lemma strip_cookie_part (pre k v : string) :
  isspace "="%char = false -> isspace " "%char = true ->
  pre = "" \/ pre = " " ->
  clean_cookie (k, v) ->
  strip_by isspace (pre +:+ k +:+ "=" +:+ v) = k +:+ "=" +:+ v.
Proof.
  intros Heq Hsp Hpre (_ & _ & _ & Hk & Hv). simpl in Hk, Hv.
  unfold strip_by.
  assert (lstrip_by isspace (pre +:+ k +:+ "=" +:+ v) = k +:+ "=" +:+ v) as ->.
  { destruct Hpre as [-> | ->].
    - by apply lstrip_by_fixed.
    - change (" " +:+ k +:+ "=" +:+ v) with (String " "%char (k +:+ "=" +:+ v)).
      simpl. rewrite Hsp. by apply lstrip_by_fixed. }
  rewrite rstrip_by_app.
  - change ("=" +:+ v) with (String "="%char v).
    by rewrite rstrip_by_cons, Hv.
  - change ("=" +:+ v) with (String "="%char v). by rewrite rstrip_by_cons.
Qed.

Lemma add_cookie_pair (m : gmap string string) (pre k v : string) :
  isspace "="%char = false -> isspace " "%char = true ->
  pre = "" \/ pre = " " ->
  clean_cookie (k, v) ->
  add_cookie (Some m) (pre +:+ k +:+ "=" +:+ v) = Some (<[k := v]> m).
Proof.
  intros Heq Hsp Hpre Hclean. unfold add_cookie.
  assert (contains "=" (pre +:+ k +:+ "=" +:+ v) = true) as ->.
  { change "=" with (String "="%char "") at 1. rewrite contains_char, !char_in_app.
    by destruct (char_in "="%char pre), (char_in "="%char k). }
  rewrite (strip_cookie_part pre k v) by done.
  destruct Hclean as (_ & Hk & _). simpl in Hk.
  change ("=" +:+ v) with (String "="%char v).
  by rewrite (split1_char_app "="%char k v Hk).
Qed.

Lemma fold_cookie_string (pairs : list (string * string)) (m : gmap string string)
    (pre : string) :
  isspace "="%char = false -> isspace " "%char = true ->
  pre = "" \/ pre = " " ->
  Forall clean_cookie pairs ->
  foldl add_cookie (Some m) (split ";" (pre +:+ cookie_string pairs))
  = Some (foldl (fun m kv => <[kv.1 := kv.2]> m) m pairs).
Proof.
  intros Heq Hsp. revert m pre.
  induction pairs as [|[k v] rest IH]; intros m pre Hpre Hall.
  - simpl. rewrite str_app_nil_r.
    assert (split ";" pre = [pre]) as -> by (by destruct Hpre as [-> | ->]).
    simpl. by destruct Hpre as [-> | ->].
  - apply Forall_cons in Hall as [Hkv Hrest].
    pose proof Hkv as (Hks & _ & Hvs & _). simpl in Hks, Hvs.
    assert (char_in ";"%char (pre +:+ k +:+ "=" +:+ v) = false) as Hpart.
    { rewrite !char_in_app, Hks, Hvs. by destruct Hpre as [-> | ->]. }
    destruct rest as [|kv' rest'].
    + change (cookie_string [(k, v)]) with (k +:+ "=" +:+ v).
      change ";" with (String ";"%char "").
      rewrite (split_char_none ";"%char) by done.
      cbn [foldl]. by rewrite add_cookie_pair.
    + change (cookie_string ((k, v) :: kv' :: rest'))
        with (k +:+ "=" +:+ v +:+ "; " +:+ cookie_string (kv' :: rest')).
      replace (pre +:+ k +:+ "=" +:+ v +:+ "; " +:+ cookie_string (kv' :: rest'))
        with ((pre +:+ k +:+ "=" +:+ v)
              +:+ String ";"%char (" " +:+ cookie_string (kv' :: rest'))).
      2:{ rewrite !str_app_assoc. done. }
      change ";" with (String ";"%char "").
      rewrite (split_char_app ";"%char) by done.
      cbn [foldl]. rewrite add_cookie_pair by done.
      change (String ";"%char "") with ";".
      rewrite (IH (<[k := v]> m) " ") by auto. done.
Qed.

Lemma fold_insert_list_to_map (pairs : list (string * string)) (m : gmap string string) :
  foldl (fun m kv => <[kv.1 := kv.2]> m) m pairs = list_to_map (reverse pairs) ∪ m.
Proof.
  revert m. induction pairs as [|[k v] pairs IH]; intros m.
  - simpl. by rewrite map_empty_union.
  - simpl. rewrite IH, reverse_cons, list_to_map_app. simpl.
    rewrite insert_empty, <- map_union_assoc. by rewrite <- insert_union_singleton_l.
Qed.

(** X21: a cookie header made of clean pairs joined by ["; "] is parsed back
    into exactly these pairs, the later of two pairs with the same name
    giving the value. *)
Theorem parse_cookie_string_round_trip (pairs : list (string * string)) :
  isspace "="%char = false -> isspace " "%char = true ->
  Forall clean_cookie pairs ->
  parse_cookie_string (cookie_string pairs) = Some (list_to_map (reverse pairs)).
Proof.
  intros Heq Hsp Hall. unfold parse_cookie_string.
  pose proof (fold_cookie_string pairs ∅ "" Heq Hsp (or_introl eq_refl) Hall) as Hrun.
  change ("" +:+ cookie_string pairs) with (cookie_string pairs) in Hrun.
  by rewrite Hrun, fold_insert_list_to_map, map_union_empty.
Qed.

(** ** The list of types *)

Lemma filter_blank_parts (parts : list string) :
  Forall (fun part => strip_by isspace part = "") parts ->
  filter (fun t => strip_by isspace t <> "") parts = [].
Proof.
  induction parts as [|part parts IH]; intros Hblank; [done|].
  apply Forall_cons in Hblank as [Hp Hps].
  rewrite filter_cons_False by (by intros Hne). by apply IH.
Qed.

(** X22: the list of types that [main] derives from [--types] is never
    empty; its entries are non-empty, in lower case and without comma, so an
    entry asks for the PDF exactly when it is [pdf]; an argument whose parts
    are all blank gives [["pdf"]]. *)
Theorem main_types_are_normalised (arg : string) :
  main_types arg <> [] /\
  Forall (fun t => t <> "" /\ lower t = t /\ char_in ","%char t = false /\
                   (type_code t = 2 <-> t = "pdf"))
         (main_types arg) /\
  (Forall (fun part => strip_by isspace part = "") (split "," arg) ->
   main_types arg = ["pdf"]).
Proof.
  unfold main_types.
  set (kept := filter (fun t => strip_by isspace t <> "") (split "," arg)).
  assert (Forall (fun t => t <> "" /\ lower t = t /\ char_in ","%char t = false /\
                           (type_code t = 2 <-> t = "pdf"))
                 (map (fun t => lower (strip_by isspace t)) kept)) as Hall.
  { apply Forall_fmap, Forall_forall. intros part Hin. simpl.
    apply list_elem_of_filter in Hin as [Hne Hin].
    pose proof (split_char_pieces ","%char arg) as Hpieces.
    change (String ","%char "") with "," in Hpieces.
    rewrite Forall_forall in Hpieces. specialize (Hpieces part Hin).
    split; [by apply lower_nonempty|]. split; [apply lower_idemp|]. split.
    - rewrite lower_keeps_comma.
      destruct (char_in ","%char (strip_by isspace part)) eqn:Hc; [|done].
      apply strip_by_sub in Hc. congruence.
    - unfold type_code. rewrite lower_idemp. case_decide; split; done. }
  split; [by destruct (map _ kept)|]. split.
  - destruct (map _ kept) eqn:Hm; [|done].
    repeat constructor; done.
  - intros Hblank.
    assert (kept = []) as ->; [|done].
    subst kept. by apply filter_blank_parts.
Qed.

End Glue.

(** ** The scenarios *)

Import Scenarios.

Lemma safe_filename_is_bounded_and_clean_witness :
  contains "/" (safe_filename "Lease/sub-lease (2024).pdf") = false.
Proof.
  apply (safe_filename_is_bounded_and_clean "Lease/sub-lease (2024).pdf").
  reflexivity.
Defined.

Lemma chosen_extension_is_well_formed_witness :
  ".docx" <> "" /\ prefix_of "." ".docx" = true /\ contains "/" ".docx" = false.
Proof.
  apply (chosen_extension_is_well_formed
           {| status_code := 200;
              content_type := Some "application/vnd.openxmlformats-officedocument.wordprocessingml.document";
              content_disposition := None; chunks := []; stream_error := None;
              raw_seek_error := Some "seek" |}
           "application/vnd.openxmlformats-officedocument.wordprocessingml.document").
  vm_compute. reflexivity.
Defined.

Lemma negative_retries_try_nothing_witness :
  download_one pdf_session lease_entry "out" ["pdf"; "word"] (-1) empty_world
  = (empty_world, (false, Msg "fail_pdf:None")).
Proof.
  apply (negative_retries_try_nothing pdf_session lease_entry "out" "pdf" ["word"] (-1)
           empty_world "https://htsfwb.samr.gov.cn/View?id=42" "42").
  - vm_compute. reflexivity.
  - discriminate.
  - vm_compute. reflexivity.
  - discriminate.
  - lia.
Defined.

Lemma fallback_id_has_no_ampersand_witness :
  extract_uid "https://htsfwb.samr.gov.cn/View#id=42&x=1" = Some "42" /\
  char_in "&"%char "42" = false.
Proof.
  assert (extract_uid "https://htsfwb.samr.gov.cn/View#id=42&x=1" = Some "42") as Hid
    by (vm_compute; reflexivity).
  split; [exact Hid|].
  destruct (proj2 (fallback_id_has_no_ampersand _ _ Hid)) as [(_ & _ & Hno)|(Hc & _)].
  - vm_compute. reflexivity.
  - exact Hno.
  - vm_compute in Hc. discriminate.
Defined.


Lemma parse_cookie_string_returns_clean_pairs_witness :
  exists cookies,
    parse_cookie_string "__jsluid_s=abc; samr=isopen; junk" = Some cookies /\
    cookies !! "samr" = Some "isopen".
Proof.
  assert (isspace "="%char = false) as Hneq by (vm_compute; reflexivity).
  destruct (parse_cookie_string_returns_clean_pairs
              "__jsluid_s=abc; samr=isopen; junk" Hneq) as (cookies & Hrun & _).
  exists cookies. split; [exact Hrun|].
  assert (Some cookies = parse_cookie_string "__jsluid_s=abc; samr=isopen; junk")
    as Heq by (by rewrite Hrun).
  injection Heq as ->. vm_compute. reflexivity.
Defined.

Lemma parse_cookie_string_round_trip_witness :
  parse_cookie_string "samr=isopen; lang=zh; samr=closed"
  = Some (<["lang" := "zh"]> (<["samr" := "closed"]> ∅)).
Proof.
  etransitivity.
  - apply (parse_cookie_string_round_trip
             [("samr", "isopen"); ("lang", "zh"); ("samr", "closed")]);
      [vm_compute; reflexivity|vm_compute; reflexivity|].
    repeat constructor.
  - vm_compute. reflexivity.
Defined.

Lemma main_types_are_normalised_witness : main_types " , ,, " = ["pdf"].
Proof.
  apply (main_types_are_normalised " , ,, ").
  assert (split "," " , ,, " = [" "; " "; ""; " "]) as -> by (vm_compute; reflexivity).
  repeat (apply Forall_cons_2; [vm_compute; reflexivity|]). apply Forall_nil_2.
Defined.

End DownloadMore.

(** * The attempt on a file system that can refuse *)

Module DownloadIo.
Import Py PyFacts Download Notions DownloadFacts.

(** ** Writing the chunks *)

(** What the chunk loop leaves is what writing some first chunks leaves; all
    of them when no write raised. *)
Lemma write_chunks_io_stage (env : Env) (path : string) (cs : list (list byte))
    (g : gmap string (list byte)) :
  exists k,
    (write_chunks_io env path cs g).1
    = foldl (fun g chunk => match chunk with [] => g | _ => append_file path chunk g end)
            g (firstn k cs) /\
    ((write_chunks_io env path cs g).2 = None -> firstn k cs = cs).
Proof.
  revert g. induction cs as [|c cs IH]; intros g.
  - exists 0%nat. done.
  - destruct c as [|b c]; simpl.
    + destruct (IH g) as (k & Hk & Hall). exists (S k). simpl.
      split; [done|]. intros Hnone. by rewrite Hall.
    + destruct (fs_error env g (WriteChunk path)) as [msg|].
      * exists 0%nat. done.
      * destruct (IH (append_file path (b :: c) g)) as (k & Hk & Hall).
        exists (S k). simpl. split; [done|]. intros Hnone. by rewrite Hall.
Qed.

Lemma write_chunks_io_reliable (env : Env) (path : string) (cs : list (list byte))
    (g : gmap string (list byte)) :
  (forall f c, fs_error env f c = None) ->
  write_chunks_io env path cs g
  = (foldl (fun g chunk => match chunk with [] => g | _ => append_file path chunk g end)
           g cs, None).
Proof.
  intros Hok. revert g. induction cs as [|c cs IH]; intros g; [done|].
  destruct c as [|b c]; simpl; [apply IH|]. rewrite Hok. apply IH.
Qed.

Lemma write_debug_reliable (env : Env) (path : string) (data : list byte)
    (f : gmap string (list byte)) :
  (forall f c, fs_error env f c = None) ->
  write_debug env path data f = write_file path data f.
Proof.
  intros Hok. unfold write_debug. rewrite !Hok. unfold write_file.
  apply insert_insert_eq.
Qed.

(** The debug page is left as it was, opened and empty, or written. *)
Lemma write_debug_cases (env : Env) (path : string) (data : list byte)
    (f : gmap string (list byte)) :
  write_debug env path data f = f \/
  write_debug env path data f = <[path := []]> f \/
  write_debug env path data f = <[path := data]> f.
Proof.
  unfold write_debug, write_file.
  destruct (fs_error env f (OpenWrite path)); [by left|].
  destruct (fs_error env (<[path:=[]]> f) (WriteChunk path)); [by right; left|].
  right; right. apply insert_insert_eq.
Qed.

Section WithLib.
Context `{!PyLib}.
Variable env : Env.
Variable session : Session.

(** ** The model without errors of the file system *)

(** On a file system that raises nothing, and for bodies whose text is
    their bytes, the attempt is [attempt_once]. *)
Lemma attempt_once_io_reliable (j : Job) (typ a : Z) (w : World) :
  (forall f c, fs_error env f c = None) ->
  (forall r, get session (requests w) (request_of j typ) = Replied r ->
             status_code r <> 200 -> text_utf8 env r = concat (chunks r)) ->
  attempt_once_io env session j typ a w = attempt_once session j typ a w.
Proof.
  intros Hok Htext. unfold attempt_once_io, attempt_once.
  destruct (get session (requests w) (request_of j typ)) as [msg|r] eqn:Hget; [done|].
  case_decide as Hst.
  - rewrite Hok. unfold read_content. destruct (stream_error r) as [e|]; [done|].
    rewrite write_debug_reliable by done. rewrite (Htext r eq_refl Hst). done.
  - destruct (choose_ext r (lower (default "" (content_type r)))) as [msg|[ext|]];
      [done| |].
    + rewrite !Hok. rewrite write_chunks_io_reliable by done.
      destruct (stream_error r) as [msg|]; [done|]. by rewrite Hok.
    + rewrite Hok. destruct (read_content r) as [e|body]; [done|].
      by rewrite write_debug_reliable.
Qed.

(** ** The save *)

(** The two ways the save ends: renamed after the whole payload was written
    to the sibling, or failed with the files as they were or with some first
    chunks in the sibling. *)
Lemma attempt_once_io_save (j : Job) (typ a : Z) (w : World) (r : Response)
    (ext : string) :
  get session (requests w) (request_of j typ) = Replied r ->
  status_code r = 200 ->
  choose_ext r (lower (default "" (content_type r))) = inr (Some ext) ->
  let outpath := choose_outpath (fs w) (job_outdir j) (job_section j) (job_title j)
                   (job_uid j) ext in
  let part := outpath +:+ ".part" in
  let run := attempt_once_io env session j typ a w in
  (run.2 = inr outpath /\ stream_error r = None /\
   fs run.1 = os_replace part outpath (write_chunks part (chunks r) (fs w)) /\
   sleeps run.1 = sleeps w) \/
  (exists msg k,
     run.2 = inl msg /\ sleeps run.1 = sleeps w ++ [sleep_delay a] /\
     (fs run.1 = fs w \/ fs run.1 = write_chunks part (firstn k (chunks r)) (fs w))).
Proof.
  intros Hget Hst Hext outpath part run. subst run.
  unfold attempt_once_io. rewrite Hget. case_decide as Hne; [done|]. rewrite Hext.
  simpl. fold outpath. fold part.
  destruct (fs_error env (fs w) (MakeDirs _)) as [msg|].
  { right. exists msg, 0%nat. simpl. auto. }
  destruct (fs_error env (fs w) (OpenWrite part)) as [msg|].
  { right. exists msg, 0%nat. simpl. auto. }
  destruct (write_chunks_io_stage env part (chunks r) (write_file part [] (fs w)))
    as (k & Hk & Hall).
  destruct (write_chunks_io env part (chunks r) (write_file part [] (fs w)))
    as [f2 [msg|]]; simpl in Hk, Hall.
  { right. exists msg, k. simpl. auto. }
  rewrite Hall in Hk by done.
  destruct (stream_error r) as [msg|].
  { right. exists msg, (length (chunks r)). simpl. rewrite firstn_all. auto. }
  destruct (fs_error env f2 (Replace part outpath)) as [msg|].
  { right. exists msg, (length (chunks r)). simpl. rewrite firstn_all. auto. }
  left. simpl. rewrite Hk. auto.
Qed.

(** C8: the save of a response with status 200 and an extension, on a file
    system whose calls may raise.  Every stage of the write, after any
    number of chunks, leaves the final path as it was.  An attempt that
    fails, by the transfer or by the file system, leaves the files as they
    were or with some first chunks in the sibling [<final>.part]: the final
    path holds what it held before, which is nothing when it was free, and
    always so when the plain path was free.  An attempt that succeeds has
    written the whole payload to the sibling and then renamed it: the final
    path holds the whole payload and the sibling is gone.  When the file
    system raises nothing, the attempt is [attempt_once], it succeeds at the
    final path if the transfer completes, and if the transfer breaks it
    fails with that error, the chunks received lying in the sibling. *)
Theorem payload_is_written_aside_then_renamed (j : Job) (typ a : Z) (w : World)
    (r : Response) (ext : string) :
  get session (requests w) (request_of j typ) = Replied r ->
  status_code r = 200 ->
  choose_ext r (lower (default "" (content_type r))) = inr (Some ext) ->
  let outpath := choose_outpath (fs w) (job_outdir j) (job_section j) (job_title j)
                   (job_uid j) ext in
  let part := outpath +:+ ".part" in
  let run := attempt_once_io env session j typ a w in
  (forall k, write_chunks part (firstn k (chunks r)) (fs w) !! outpath = fs w !! outpath) /\
  (forall msg,
     run.2 = inl msg ->
     (exists k, fs run.1 = fs w \/
                fs run.1 = write_chunks part (firstn k (chunks r)) (fs w)) /\
     fs run.1 !! outpath = fs w !! outpath /\
     (forall p, p <> part -> fs run.1 !! p = fs w !! p) /\
     (fs w !! outpath = None -> fs run.1 !! outpath = None) /\
     (fs w !! os_path_join (os_path_join (job_outdir j) (job_section j))
                (safe_filename (job_title j) +:+ ext) = None ->
      fs run.1 !! outpath = None)) /\
  (forall p,
     run.2 = inr p ->
     p = outpath /\
     stream_error r = None /\
     fs run.1 = os_replace part outpath (write_chunks part (chunks r) (fs w)) /\
     fs run.1 !! outpath = Some (concat (chunks r)) /\
     fs run.1 !! part = None /\
     (forall q, q <> outpath -> q <> part -> fs run.1 !! q = fs w !! q)) /\
  ((forall f c, fs_error env f c = None) ->
   run = attempt_once session j typ a w /\
   (stream_error r = None -> run.2 = inr outpath) /\
   (forall msg, stream_error r = Some msg ->
      run.2 = inl msg /\ fs run.1 !! part = Some (concat (chunks r)))).
Proof.
  intros Hget Hst Hext outpath part run.
  pose proof (part_ne outpath) as Hpart. fold part in Hpart.
  assert (forall k p, p <> part ->
            write_chunks part (firstn k (chunks r)) (fs w) !! p = fs w !! p) as Hstage
    by (intros k p Hp; by apply write_chunks_lookup_ne).
  assert (outpath <> part) as Hout by done.
  destruct (attempt_once_io_save j typ a w r ext Hget Hst Hext)
    as [(Hres & Herr & Hfs & _)|(msg0 & k & Hres & _ & Hfs)];
    fold outpath part run in Hres, Hfs.
  - split; [intros k; by apply Hstage|]. split; [intros msg Hmsg; congruence|].
    destruct (save_lookup outpath (chunks r) (fs w)) as (Hnew & Hgone & Hother).
    fold part in Hnew, Hgone, Hother. rewrite <- Hfs in Hnew, Hgone, Hother.
    split.
    { intros p Hp. rewrite Hres in Hp. injection Hp as <-. done. }
    intros Hok. split; [|split].
    + apply attempt_once_io_reliable; [done|]. intros r' Hr'. congruence.
    + done.
    + intros msg Hmsg. congruence.
  - assert (forall p, p <> part -> fs run.1 !! p = fs w !! p) as Hkeeps.
    { intros p Hp. destruct Hfs as [->| ->]; [done|by apply Hstage]. }
    split; [intros k'; by apply Hstage|]. split.
    { intros msg _. split; [by exists k|]. split; [by apply Hkeeps|].
      split; [done|]. split; [intros Hnone; by rewrite Hkeeps|].
      intros Hfree. rewrite Hkeeps by done.
      destruct (choose_outpath_spec (fs w) (job_outdir j) (job_section j) (job_title j)
                  (job_uid j) ext) as [Hspec _].
      fold outpath in Hspec. simpl in Hspec. rewrite Hfree in Hspec.
      by rewrite Hspec. }
    split; [intros p Hp; congruence|].
    intros Hok.
    assert (run = attempt_once session j typ a w) as Hrun.
    { apply attempt_once_io_reliable; [done|]. intros r' Hr'. congruence. }
    split; [done|]. rewrite Hrun. unfold attempt_once. rewrite Hget.
    case_decide as Hne; [done|]. rewrite Hext. fold outpath. fold part. simpl.
    split.
    + intros Hnone. by rewrite Hnone.
    + intros msg Hmsg. rewrite Hmsg. simpl. split; [done|]. apply write_chunks_lookup.
Qed.

(** ** A status other than 200 *)

(** X18: the status is looked at first: a response whose status is not 200
    is never saved, whatever its content type, disposition and body.  The
    attempt fails, with [status <code>] unless the debug directory cannot be
    made, in which case with that error and no file changed; it sleeps, and
    changes no file except the debug page
    [debug_html/<uid>_<type>_status<code>.html], which is left as it was,
    left opened and empty, or holds the text of the body encoded in UTF-8,
    not the bytes received.  The page is not opened when the body cannot be
    read, and holds the text when the file system raises nothing. *)
Theorem non_200_is_never_saved (j : Job) (typ a : Z) (w : World) (r : Response) :
  get session (requests w) (request_of j typ) = Replied r ->
  status_code r <> 200 ->
  let debug_dir := os_path_join (job_outdir j) "debug_html" in
  let debug := os_path_join debug_dir
                 (job_uid j +:+ "_" +:+ pretty typ +:+ "_status"
                  +:+ pretty (status_code r) +:+ ".html") in
  let run := attempt_once_io env session j typ a w in
  (exists msg, run.2 = inl msg) /\
  (fs_error env (fs w) (MakeDirs debug_dir) = None ->
   run.2 = inl ("status " +:+ pretty (status_code r))) /\
  (forall msg, fs_error env (fs w) (MakeDirs debug_dir) = Some msg ->
     run.2 = inl msg /\ fs run.1 = fs w) /\
  sleeps run.1 = sleeps w ++ [sleep_delay a] /\
  requests run.1 = requests w ++ [request_of j typ] /\
  (forall p, p <> debug -> fs run.1 !! p = fs w !! p) /\
  (fs run.1 = fs w \/ fs run.1 = <[debug := []]> (fs w) \/
   fs run.1 = <[debug := text_utf8 env r]> (fs w)) /\
  (stream_error r <> None -> fs run.1 = fs w) /\
  (stream_error r = None -> (forall f c, fs_error env f c = None) ->
   fs run.1 = <[debug := text_utf8 env r]> (fs w)).
Proof.
  intros Hget Hst debug_dir debug run. subst run.
  unfold attempt_once_io. rewrite Hget. case_decide as Hne; [|done].
  fold debug_dir. fold debug. simpl.
  destruct (fs_error env (fs w) (MakeDirs debug_dir)) as [msg|] eqn:Hmk; simpl.
  { split; [by exists msg|]. split; [done|].
    split; [intros msg' Hmsg'; by injection Hmsg' as <-|].
    repeat split; auto. intros _ Hok. by rewrite Hok in Hmk. }
  split; [by eexists|]. split; [done|]. split; [done|]. split; [done|]. split; [done|].
  unfold read_content. destruct (stream_error r) as [e|].
  { repeat split; auto. intros Hnone. discriminate. }
  destruct (write_debug_cases env debug (text_utf8 env r) (fs w)) as [Hw|[Hw|Hw]];
    (split; [intros p Hp; rewrite Hw; by rewrite ?lookup_insert_ne|]);
    (split; [auto|]); (split; [done|]);
    intros _ Hok; rewrite write_debug_reliable by done; done.
Qed.

End WithLib.

(** ** Worked runs *)

Import Scenarios.

Lemma payload_is_written_aside_then_renamed_witness :
  let saved := attempt_once_io reliable_env pdf_session lease_job 2 0 empty_world in
  let broken := attempt_once_io reliable_env broken_session lease_job 2 0 empty_world in
  let refused := attempt_once_io readonly_env pdf_session lease_job 2 0 empty_world in
  (saved.2 = inr "out/national/Lease contract.pdf" /\
   fs saved.1 !! "out/national/Lease contract.pdf" = Some (pdf_head ++ [x00]) /\
   fs saved.1 !! "out/national/Lease contract.pdf.part" = None) /\
  (broken.2 = inl "Connection broken" /\
   fs broken.1 !! "out/national/Lease contract.pdf" = None /\
   fs broken.1 !! "out/national/Lease contract.pdf.part" = Some pdf_head) /\
  (refused.2 = inl "Permission denied" /\
   fs refused.1 !! "out/national/Lease contract.pdf" = None).
Proof.
  intros saved broken refused. split; [|split].
  - destruct (payload_is_written_aside_then_renamed reliable_env pdf_session lease_job
                2 0 empty_world
                {| status_code := 200; content_type := Some "application/pdf";
                   content_disposition := None; chunks := [pdf_head; [x00]];
                   stream_error := None; raw_seek_error := Some "seek" |}
                ".pdf" eq_refl eq_refl eq_refl)
      as (_ & _ & Hsaved & Hok).
    destruct (Hok (fun _ _ => eq_refl)) as (_ & Hres & _).
    specialize (Hres eq_refl).
    destruct (Hsaved _ Hres) as (_ & _ & _ & Hnew & Hgone & _).
    split; [exact Hres|]. split; [exact Hnew|exact Hgone].
  - destruct (payload_is_written_aside_then_renamed reliable_env broken_session lease_job
                2 0 empty_world
                {| status_code := 200; content_type := Some "application/pdf";
                   content_disposition := None; chunks := [pdf_head];
                   stream_error := Some "Connection broken";
                   raw_seek_error := Some "seek" |}
                ".pdf" eq_refl eq_refl eq_refl)
      as (_ & Hfailed & _ & Hok).
    destruct (Hok (fun _ _ => eq_refl)) as (_ & _ & Hbroken).
    destruct (Hbroken _ eq_refl) as (Hres & Hpart).
    destruct (Hfailed _ Hres) as (_ & _ & _ & Hfree & _).
    split; [exact Hres|]. split; [apply Hfree; reflexivity|exact Hpart].
  - destruct (payload_is_written_aside_then_renamed readonly_env pdf_session lease_job
                2 0 empty_world
                {| status_code := 200; content_type := Some "application/pdf";
                   content_disposition := None; chunks := [pdf_head; [x00]];
                   stream_error := None; raw_seek_error := Some "seek" |}
                ".pdf" eq_refl eq_refl eq_refl)
      as (_ & Hfailed & _).
    assert (refused.2 = inl "Permission denied") as Hres by (vm_compute; reflexivity).
    destruct (Hfailed _ Hres) as (_ & _ & _ & Hfree & _).
    split; [exact Hres|apply Hfree; reflexivity].
Defined.

Lemma non_200_is_never_saved_witness :
  let run := attempt_once_io latin1_env cafe_session lease_job 2 0 empty_world in
  let refused := attempt_once_io readonly_env missing_pdf_session lease_job 2 0
                   empty_world in
  (run.2 = inl "status 404" /\
   fs run.1 !! "out/debug_html/42_2_status404.html" = Some [x63; x61; x66; xc3; xa9] /\
   fs run.1 !! "out/national/Lease contract.pdf" = None) /\
  (refused.2 = inl "status 404" /\
   fs refused.1 !! "out/national/Lease contract.pdf" = None).
Proof.
  intros run refused. split.
  - destruct (non_200_is_never_saved latin1_env cafe_session lease_job 2 0 empty_world
                {| status_code := 404;
                   content_type := Some "text/html; charset=ISO-8859-1";
                   content_disposition := None; chunks := [[x63; x61; x66; xe9]];
                   stream_error := None; raw_seek_error := Some "seek" |}
                eq_refl)
      as (_ & Hres & _ & _ & _ & Hother & _ & _ & Hpage); [discriminate|].
    fold run in Hres, Hother, Hpage.
    split; [exact (Hres eq_refl)|]. split.
    + rewrite (Hpage eq_refl (fun _ _ => eq_refl)). vm_compute. reflexivity.
    + rewrite Hother; [reflexivity|]. vm_compute. discriminate.
  - destruct (non_200_is_never_saved readonly_env missing_pdf_session lease_job 2 0
                empty_world
                {| status_code := 404; content_type := Some "application/pdf";
                   content_disposition := None; chunks := [pdf_head; pdf_tail];
                   stream_error := None; raw_seek_error := Some "seek" |}
                eq_refl)
      as (_ & Hres & _ & _ & _ & Hother & _); [discriminate|].
    fold refused in Hres, Hother.
    split; [exact (Hres eq_refl)|].
    rewrite Hother; [reflexivity|]. vm_compute. discriminate.
Defined.

End DownloadIo.

(** * The first page *)

Module CollectSeeding.
Import Collect Scenarios.


End CollectSeeding.
